(** * slackcli: the dual-mode Slack API client (src/lib/slack-client.ts)
      and the mark-read command (src/commands/conversations.ts)

    A shallow embedding of the client class and of the command that marks
    a conversation as read.  JavaScript values that reach the client are
    modelled by a small value type, objects used as parameter mappings by
    association lists that keep the order of creation and are enumerated
    the way JavaScript does, and the asynchronous methods by a
    monad that threads the history of external interactions and may raise
    a JavaScript exception.

    Conventions.  Strings are byte strings (UTF-8).  Numbers are integers
    or NaN; [Date.now() / 1000] is taken as given text.  The network, the
    library client of the standard transport, the file system and the
    credential store are a [World] whose answers may depend on the whole
    history.  The progress callback of the upload is a sink that records
    the step it is told.  Every run appends events to the history; besides
    the interactions themselves it notes, the way a test double of
    [request] does, each invocation of [request] and [uploadToUrl] with
    its outcome. *)

From Stdlib Require Import List String Ascii ZArith Bool Arith Lia.
From Stdlib Require Import Strings.Byte.
From Stdlib Require Import DecimalString Permutation.
Import ListNotations.

Local Open Scope list_scope.
Local Open Scope string_scope.

(** ** JavaScript values *)

Module Js.

(** Numbers that reach the client are results of [parseInt] or byte
    lengths: an integer or NaN.  Fractions and infinities never occur and
    are left out; the decimal rendering is the one of integers below
    10^21 in absolute value. *)
Inductive Num : Type :=
| NaN
| Int (z : Z).

Inductive Val : Type :=
| VUndef
| VNull
| VBool (b : bool)
| VNum (n : Num)
| VStr (s : string).

Definition string_of_Z (z : Z) : string :=
  NilZero.string_of_int (Z.to_int z).

Definition string_of_nat (n : nat) : string :=
  string_of_Z (Z.of_nat n).

(** [String(n)] for a number. *)
Definition String_num (n : Num) : string :=
  match n with
  | NaN => "NaN"
  | Int z => string_of_Z z
  end.

(** [String(v)]. *)
Definition String_ (v : Val) : string :=
  match v with
  | VUndef => "undefined"
  | VNull => "null"
  | VBool true => "true"
  | VBool false => "false"
  | VNum n => String_num n
  | VStr s => s
  end.

(** Truthiness, as tested by [if (x)] and [x || y]. *)
Definition truthy_num (n : Num) : bool :=
  match n with
  | NaN => false
  | Int z => negb (Z.eqb z 0)
  end.

Definition truthy_str (s : string) : bool :=
  match s with
  | EmptyString => false
  | String _ _ => true
  end.

Definition truthy (v : Val) : bool :=
  match v with
  | VUndef | VNull => false
  | VBool b => b
  | VNum n => truthy_num n
  | VStr s => truthy_str s
  end.

(** An optional property read: [None] stands for a property that is
    absent or holds [undefined]; both read as [undefined]. *)
Definition truthy_opt_str (o : option string) : bool :=
  match o with
  | Some s => truthy_str s
  | None => false
  end.

Definition truthy_opt_num (o : option Num) : bool :=
  match o with
  | Some n => truthy_num n
  | None => false
  end.

(** [s.startsWith(p)]. *)
Definition startsWith (s p : string) : bool := String.prefix p s.

(** *** Objects used as records: the own enumerable properties, listed
    in the order of their creation.  The order in which JavaScript
    enumerates them is given by [entries]. *)
Definition Obj : Type := list (string * Val).

Fixpoint get (k : string) (o : Obj) : option Val :=
  match o with
  | [] => None
  | (k', v) :: o' => if String.eqb k k' then Some v else get k o'
  end.

Definition has (k : string) (o : Obj) : bool :=
  match get k o with
  | Some _ => true
  | None => false
  end.

(** [o[k] = v]: overwrite in place, or append a new property. *)
Fixpoint set (k : string) (v : Val) (o : Obj) : Obj :=
  match o with
  | [] => [(k, v)]
  | (k', v') :: o' =>
      if String.eqb k k' then (k', v) :: o' else (k', v') :: set k v o'
  end.

(** The keys, in the order of creation. *)
Definition keys (o : Obj) : list string := map fst o.

(** The value of a decimal digit. *)
Definition digit (c : ascii) : option N :=
  let n := N_of_ascii c in
  if (N.leb 48 n && N.leb n 57)%bool then Some (n - 48)%N else None.

Fixpoint decimal (s : string) (acc : N) : option N :=
  match s with
  | EmptyString => Some acc
  | String c s' =>
      match digit c with
      | Some d => decimal s' (10 * acc + d)%N
      | None => None
      end
  end.

(** A key that is an array index: the canonical decimal text (no sign,
    no leading zero) of an integer below 2^32 - 1. *)
Definition array_index (k : string) : option N :=
  match k with
  | EmptyString => None
  | String c k' =>
      if Ascii.eqb c "0" then
        match k' with
        | EmptyString => Some 0%N
        | String _ _ => None
        end
      else
        match decimal k 0 with
        | Some n => if N.ltb n 4294967295 then Some n else None
        | None => None
        end
  end.

Definition is_index (kv : string * Val) : bool :=
  match array_index (fst kv) with
  | Some _ => true
  | None => false
  end.

(** The properties whose key is an array index, each with its index. *)
Fixpoint indexed (o : Obj) : list (N * (string * Val)) :=
  match o with
  | [] => []
  | kv :: o' =>
      match array_index (fst kv) with
      | Some n => (n, kv) :: indexed o'
      | None => indexed o'
      end
  end.

Fixpoint insert_by_index (x : N * (string * Val)) (l : list (N * (string * Val)))
  : list (N * (string * Val)) :=
  match l with
  | [] => [x]
  | y :: l' => if N.leb (fst x) (fst y) then x :: l else y :: insert_by_index x l'
  end.

Definition sort_by_index (l : list (N * (string * Val))) : list (N * (string * Val)) :=
  fold_right insert_by_index [] l.

(** The order of enumeration of [Object.keys], of the spread syntax and
    of every iteration over own properties: the array indices in
    ascending order, then the other keys in the order of creation. *)
Definition entries (o : Obj) : Obj :=
  (map snd (sort_by_index (indexed o)) ++ filter (fun kv => negb (is_index kv)) o)%list.

(** [{...target, ...source}]: every property of [source], in the order
    of enumeration, is assigned to [target]. *)
Definition spread (target source : Obj) : Obj :=
  fold_left (fun acc kv => set (fst kv) (snd kv) acc) (entries source) target.

Definition wf (o : Obj) : Prop := NoDup (keys o).

End Js.

Import Js.

(** ** Text primitives of the platform *)

Definition hex_upper (n : nat) : ascii :=
  match n with
  | 0 => "0" | 1 => "1" | 2 => "2" | 3 => "3" | 4 => "4" | 5 => "5"
  | 6 => "6" | 7 => "7" | 8 => "8" | 9 => "9" | 10 => "A" | 11 => "B"
  | 12 => "C" | 13 => "D" | 14 => "E" | _ => "F"
  end%char.

Definition hex_lower (n : nat) : ascii :=
  match n with
  | 0 => "0" | 1 => "1" | 2 => "2" | 3 => "3" | 4 => "4" | 5 => "5"
  | 6 => "6" | 7 => "7" | 8 => "8" | 9 => "9" | 10 => "a" | 11 => "b"
  | 12 => "c" | 13 => "d" | 14 => "e" | _ => "f"
  end%char.

Definition between (lo hi n : nat) : bool := Nat.leb lo n && Nat.leb n hi.

(** Characters that [encodeURIComponent] leaves alone:
    letters, digits and [- _ . ! ~ * ' ( )]. *)
Definition uri_unreserved (c : ascii) : bool :=
  let n := nat_of_ascii c in
  between 65 90 n || between 97 122 n || between 48 57 n
  || existsb (Nat.eqb n) [45; 95; 46; 33; 126; 42; 39; 40; 41].

(** [encodeURIComponent(s)], on the UTF-8 bytes of the string. *)
Fixpoint encodeURIComponent (s : string) : string :=
  match s with
  | EmptyString => EmptyString
  | String c s' =>
      if uri_unreserved c then String c (encodeURIComponent s')
      else
        let n := nat_of_ascii c in
        String "%" (String (hex_upper (n / 16)) (String (hex_upper (n mod 16))
                   (encodeURIComponent s')))
  end.

Definition dquote : string := String (ascii_of_nat 34) EmptyString.
Definition backslash : string := String (ascii_of_nat 92) EmptyString.

(** The escape of one character inside a JSON string literal. *)
Definition json_escape_char (c : ascii) : string :=
  let n := nat_of_ascii c in
  match n with
  | 8 => backslash ++ "b"
  | 9 => backslash ++ "t"
  | 10 => backslash ++ "n"
  | 12 => backslash ++ "f"
  | 13 => backslash ++ "r"
  | 34 => backslash ++ dquote
  | 92 => backslash ++ backslash
  | _ =>
      if Nat.ltb n 32 then
        backslash ++ "u00"
        ++ String (hex_lower (n / 16)) (String (hex_lower (n mod 16)) EmptyString)
      else String c EmptyString
  end.

Fixpoint json_escape (s : string) : string :=
  match s with
  | EmptyString => EmptyString
  | String c s' => json_escape_char c ++ json_escape s'
  end.

(** [JSON.stringify(s)] for a string. *)
Definition json_quote (s : string) : string := dquote ++ json_escape s ++ dquote.

(** [sep.join(l)]. *)
Fixpoint join (sep : string) (l : list string) : string :=
  match l with
  | [] => ""
  | [x] => x
  | x :: rest => x ++ sep ++ join sep rest
  end.

(** [path.split('/').pop()]: the text after the last slash. *)
Fixpoint last_segment_from (cur : string) (s : string) : string :=
  match s with
  | EmptyString => cur
  | String c s' =>
      if Ascii.eqb c "/" then last_segment_from EmptyString s'
      else last_segment_from (cur ++ String c EmptyString) s'
  end.

Definition split_pop (path : string) : string := last_segment_from EmptyString path.

(** [new URLSearchParams(record)]: one name/value pair per own property,
    in the order of enumeration, each value converted with [String]. *)
Definition URLSearchParams (o : Obj) : list (string * string) :=
  map (fun kv => (fst kv, String_ (snd kv))) (Js.entries o).

Fixpoint form_get (k : string) (l : list (string * string)) : option string :=
  match l with
  | [] => None
  | (k', v) :: l' => if String.eqb k k' then Some v else form_get k l'
  end.

(** ** Types of src/types/index.ts *)

Inductive TokenType : Type := bot | user_token.

Inductive AuthType : Type := standard | browser.

Inductive WorkspaceConfig : Type :=
| StandardAuthConfig (workspace_id workspace_name token : string)
                     (token_type : TokenType)
| BrowserAuthConfig (workspace_id workspace_name workspace_url
                     xoxd_token xoxc_token : string).

Definition auth_type (c : WorkspaceConfig) : AuthType :=
  match c with
  | StandardAuthConfig _ _ _ _ => standard
  | BrowserAuthConfig _ _ _ _ _ => browser
  end.

Record SlackUserProfile : Type := {
  email : option string;
  display_name : option string;
  profile_real_name : option string
}.

Record SlackUser : Type := {
  user_id : string;
  user_name : option string;
  real_name : option string;
  profile : option SlackUserProfile
}.

Record SlackMessage : Type := {
  msg_type : string;
  msg_user : option string;
  bot_id : option string;
  text : string;
  ts : string;
  thread_ts : option string;
  reply_count : option Num
}.

(** The response envelope.  Every endpoint's response extends
    [SlackApiResponse]; the client casts the envelope to the endpoint's
    type, so one record carries the fields the client reads.  [user] and
    [messages] are optional because the code tests them before use. *)
Record SlackApiResponse : Type := {
  ok : bool;
  error : option string;
  user : option SlackUser;
  messages : option (list SlackMessage);
  upload_url : string;
  file_id : string
}.

(** The aggregate of [getUsersInfo]. *)
Record SlackUsersInfoResponse : Type := {
  users_ok : bool;
  users : list SlackUser
}.

(** An entry of the finalize call: [{ id: string; title?: string }]. *)
Record FileEntry : Type := {
  id : string;
  title : option string
}.

(** [JSON.stringify] of one entry and of the array of entries; an absent
    title is left out. *)
Definition json_of_entry (e : FileEntry) : string :=
  "{" ++ json_quote "id" ++ ":" ++ json_quote (id e)
  ++ match title e with
     | Some t => "," ++ json_quote "title" ++ ":" ++ json_quote t
     | None => ""
     end
  ++ "}".

Definition JSON_stringify (files : list FileEntry) : string :=
  "[" ++ join "," (map json_of_entry files) ++ "]".

(** ** Failures and the history of external interactions *)

(** What a [catch] clause receives: an [Error] object with its message,
    or any other thrown value. *)
Inductive Thrown : Type :=
| ErrorObj (message : string)
| ThrownVal (v : Val).

(** [err instanceof Error ? err.message : String(err)]. *)
Definition message_of (err : Thrown) : string :=
  match err with
  | ErrorObj m => m
  | ThrownVal v => String_ v
  end.

Inductive Result (A : Type) : Type :=
| Ok (a : A)
| Throw (e : Thrown).

Arguments Ok {A} a.
Arguments Throw {A} e.

Definition is_ok {A : Type} (r : Result A) : bool :=
  match r with
  | Ok _ => true
  | Throw _ => false
  end.

Record FormDataEntry : Type := {
  fd_name : string;
  fd_blob : list byte;
  fd_filename : string
}.

Inductive FetchBody : Type :=
| BodyURLSearchParams (fields : list (string * string))
| BodyFormData (entries : list FormDataEntry).

Record FetchInit : Type := {
  http_method : string;
  headers : list (string * string);
  body : FetchBody
}.

Record FetchResponse : Type := {
  resp_ok : bool;
  resp_status : Z;
  resp_json : Result SlackApiResponse
}.

Record WebClient : Type := { wc_token : string }.

Record SlackClient : Type := {
  config : WorkspaceConfig;
  webClient : option WebClient
}.

Inductive SpinnerOp : Type := sp_start | sp_text | sp_succeed | sp_fail.

(** One entry per interaction with the outside: calls to the library
    client, [fetch], file reads, console and spinner output, and, as a
    test double would record them, the invocations of [request] and
    [uploadToUrl] with their outcome. *)
Inductive Event : Type :=
| EvApiCall (token method : string) (params : Obj) (r : Result SlackApiResponse)
| EvFetch (url : string) (init : FetchInit) (r : Result FetchResponse)
| EvReadFile (path : string) (r : Result (list byte))
| EvGetClient (workspace : option string) (r : Result SlackClient)
| EvRequest (method : string) (params : Obj) (r : Result SlackApiResponse)
| EvUploadToUrl (uploadUrl filename : string) (r : Result unit)
| EvProgress (step : string)
| EvConsoleError (msg : string)
| EvSpinner (op : SpinnerOp) (msg : string)
| EvErrorOut (msg : option string)
| EvExit (code : Z).

Definition Trace : Type := list Event.

(** The outside world.  Each answer may depend on everything that
    happened before. *)
Record World : Type := {
  apiCall : Trace -> string -> string -> Obj -> Result SlackApiResponse;
  fetch : Trace -> string -> FetchInit -> Result FetchResponse;
  arrayBuffer : Trace -> string -> Result (list byte);
  getAuthenticatedClient : Trace -> option string -> Result SlackClient
}.

(** ** The monad of asynchronous methods

    A computation reads the history so far and yields a result or a
    thrown value together with the events it added. *)
Definition M (A : Type) : Type := Trace -> Result A * list Event.

Definition ret {A : Type} (a : A) : M A := fun _ => (Ok a, []).

Definition throw {A : Type} (e : Thrown) : M A := fun _ => (Throw e, []).

Definition bind {A B : Type} (m : M A) (f : A -> M B) : M B :=
  fun h =>
    match m h with
    | (Ok a, evs) => let (r, evs') := f a (h ++ evs)%list in (r, (evs ++ evs')%list)
    | (Throw e, evs) => (Throw e, evs)
    end.

Definition try_catch {A : Type} (m : M A) (handler : Thrown -> M A) : M A :=
  fun h =>
    match m h with
    | (Ok a, evs) => (Ok a, evs)
    | (Throw e, evs) =>
        let (r, evs') := handler e (h ++ evs)%list in (r, (evs ++ evs')%list)
    end.

Definition emit (ev : Event) : M unit := fun _ => (Ok tt, [ev]).

(** An interaction: ask the world and record the exchange. *)
Definition ask {A : Type} (oracle : Trace -> Result A)
           (record : Result A -> Event) : M A :=
  fun h => let r := oracle h in (r, [record r]).

(** Run a method and record its invocation with the outcome. *)
Definition recorded {A : Type} (record : Result A -> Event) (m : M A) : M A :=
  fun h => let (r, evs) := m h in (r, (evs ++ [record r])%list).

Definition lift {A : Type} (r : Result A) : M A := fun _ => (r, []).

Declare Scope js_scope.
Delimit Scope js_scope with js.
Notation "x <- m ;; k" := (bind m (fun x => k))
  (at level 61, m at next level, right associativity) : js_scope.
Notation "m ;;; k" := (bind m (fun _ => k))
  (at level 61, right associativity) : js_scope.
Local Open Scope js_scope.

(** ** Reading the message of a caught value

    [err.message] in a catch clause whose binding is typed [any]: an
    [Error] gives its message, a primitive other than [null] and
    [undefined] gives [undefined], and on [null] and [undefined] the
    property access itself raises a [TypeError].  The text of that error
    is the engine's, here JavaScriptCore's. *)
Definition message_property (err : Thrown) : Result (option string) :=
  match err with
  | ErrorObj m => Ok (Some m)
  | ThrownVal VUndef =>
      Throw (ErrorObj "undefined is not an object (evaluating 'err.message')")
  | ThrownVal VNull =>
      Throw (ErrorObj "null is not an object (evaluating 'err.message')")
  | ThrownVal _ => Ok None
  end.

(** ** Option objects of the client methods

    A field holds [None] when the property is absent or [undefined]. *)

Record HistoryOptions : Type := {
  h_cursor : option string;
  h_latest : option string;
  h_oldest : option string;
  h_inclusive : option bool;
  h_limit : option Num
}.

Record ThreadsViewOptions : Type := {
  tv_limit : option Num;
  tv_max_ts : option string
}.

Record PostOptions : Type := { p_thread_ts : option string }.

Record SearchOptions : Type := {
  s_sort : option string;
  s_sort_dir : option string;
  s_count : option Num;
  s_page : option Num
}.

Record CompleteOptions : Type := {
  c_channel_id : option string;
  c_thread_ts : option string;
  c_initial_comment : option string
}.

Record UploadOptions : Type := {
  u_channel_id : option string;
  u_thread_ts : option string;
  u_titles : option (list string);
  u_initial_comment : option string;
  u_onProgress : bool   (* whether a progress sink was supplied *)
}.

(** [if (value) params[k] = value] for an optional string. *)
Definition assign_if_str (k : string) (value : option string) (params : Obj) : Obj :=
  match value with
  | Some s => if truthy_str s then Js.set k (VStr s) params else params
  | None => params
  end.

(** [if (value) params[k] = value] for an optional number. *)
Definition assign_if_num (k : string) (value : option Num) (params : Obj) : Obj :=
  match value with
  | Some n => if truthy_num n then Js.set k (VNum n) params else params
  | None => params
  end.

(** [if (value) params[k] = String(value)] for an optional number. *)
Definition assign_if_num_String (k : string) (value : option Num) (params : Obj) : Obj :=
  match value with
  | Some n => if truthy_num n then Js.set k (VStr (String_num n)) params else params
  | None => params
  end.

(** [if (value !== undefined) params[k] = value] for an optional boolean. *)
Definition assign_if_defined_bool (k : string) (value : option bool) (params : Obj) : Obj :=
  match value with
  | Some b => Js.set k (VBool b) params
  | None => params
  end.

(** ** class SlackClient *)

Definition new_SlackClient (config : WorkspaceConfig) : SlackClient :=
  {| config := config;
     webClient :=
       match config with
       | StandardAuthConfig _ _ token _ => Some {| wc_token := token |}
       | BrowserAuthConfig _ _ _ _ _ => None
       end |}.

(** The body of the catch clause of [browserRequest]: the failure that
    leaves the method for a failure raised inside its try block. *)
Definition browserRequest_catch (err : Thrown) : Thrown :=
  match err with
  | ErrorObj m =>
      if startsWith m "Slack API error:" then err
      else ErrorObj ("Slack API error: " ++ message_of err)
  | ThrownVal _ => ErrorObj ("Slack API error: " ++ message_of err)
  end.

(** The form body of [browserRequest]. *)
Definition formBody (xoxc_token : string) (params : Obj) : list (string * string) :=
  URLSearchParams (spread [("token", VStr xoxc_token)] params).

Definition browser_headers (xoxd_token : string) : list (string * string) :=
  [("Cookie", "d=" ++ encodeURIComponent xoxd_token);
   ("Content-Type", "application/x-www-form-urlencoded");
   ("Origin", "https://app.slack.com");
   ("User-Agent", "Mozilla/5.0 (compatible; SlackCLI/0.1.0)")].

(** The parameter mappings built by the methods. *)

Definition markConversationRead_params (channel ts : string) : Obj :=
  [("channel", VStr channel); ("ts", VStr ts)].

Definition getThreadsView_params (current_ts : string) (options : ThreadsViewOptions) : Obj :=
  let params := [("current_ts", VStr current_ts)] in
  let params := assign_if_num_String "limit" (tv_limit options) params in
  let params := assign_if_str "max_ts" (tv_max_ts options) params in
  params.

Definition getConversationHistory_params (channel : string) (options : HistoryOptions) : Obj :=
  let params := [("channel", VStr channel)] in
  let params := assign_if_str "cursor" (h_cursor options) params in
  let params := assign_if_str "latest" (h_latest options) params in
  let params := assign_if_str "oldest" (h_oldest options) params in
  let params := assign_if_defined_bool "inclusive" (h_inclusive options) params in
  let params := assign_if_num "limit" (h_limit options) params in
  params.

Definition getConversationReplies_params (channel ts : string) (options : HistoryOptions) : Obj :=
  let params := [("channel", VStr channel); ("ts", VStr ts)] in
  let params := assign_if_str "cursor" (h_cursor options) params in
  let params := assign_if_str "latest" (h_latest options) params in
  let params := assign_if_str "oldest" (h_oldest options) params in
  let params := assign_if_defined_bool "inclusive" (h_inclusive options) params in
  let params := assign_if_num "limit" (h_limit options) params in
  params.

Definition postMessage_params (channel text : string) (options : PostOptions) : Obj :=
  let params := [("channel", VStr channel); ("text", VStr text)] in
  let params := assign_if_str "thread_ts" (p_thread_ts options) params in
  params.

Definition searchAll_params (query : string) (options : SearchOptions) : Obj :=
  let params := [("query", VStr query)] in
  let params := assign_if_str "sort" (s_sort options) params in
  let params := assign_if_str "sort_dir" (s_sort_dir options) params in
  let params := assign_if_num_String "count" (s_count options) params in
  let params := assign_if_num_String "page" (s_page options) params in
  params.

Definition getUploadUrl_params (filename : string) (length : Num) : Obj :=
  [("filename", VStr filename); ("length", VStr (String_num length))].

Definition completeUpload_params (files : list FileEntry) (options : CompleteOptions) : Obj :=
  let params := [("files", VStr (JSON_stringify files))] in
  let params := assign_if_str "channel_id" (c_channel_id options) params in
  let params := assign_if_str "thread_ts" (c_thread_ts options) params in
  let params := assign_if_str "initial_comment" (c_initial_comment options) params in
  params.

Definition em_dash : string :=
  String (ascii_of_nat 226) (String (ascii_of_nat 128) (String (ascii_of_nat 148) EmptyString)).

Section Client.

Variable w : World.

(** [Date.now() / 1000] rendered by [String]; the fraction itself is not
    modelled, the rendering is supplied with the client. *)
Variable current_ts_string : Trace -> string.

Definition standardRequest (this : SlackClient) (method : string) (params : Obj)
  : M SlackApiResponse :=
  match webClient this with
  | None => throw (ErrorObj "WebClient not initialized")
  | Some wc =>
      try_catch
        (ask (fun h => apiCall w h (wc_token wc) method params)
             (EvApiCall (wc_token wc) method params))
        (fun err => throw (ErrorObj ("Slack API error: " ++ message_of err)))
  end.

Definition browserRequest (this : SlackClient) (method : string) (params : Obj)
  : M SlackApiResponse :=
  match config this with
  | StandardAuthConfig _ _ _ _ => throw (ErrorObj "Invalid auth type")
  | BrowserAuthConfig _ _ workspace_url xoxd_token xoxc_token =>
      let url := workspace_url ++ "/api/" ++ method in
      let init := {| http_method := "POST";
                     headers := browser_headers xoxd_token;
                     body := BodyURLSearchParams (formBody xoxc_token params) |} in
      try_catch
        (response <- ask (fun h => fetch w h url init) (EvFetch url init) ;;
         if negb (resp_ok response) then
           throw (ErrorObj ("HTTP error! status: " ++ string_of_Z (resp_status response)))
         else
           data <- lift (resp_json response) ;;
           if negb (ok data) then
             throw (ErrorObj (match error data with
                              | Some e => if truthy_str e then e else "Unknown API error"
                              | None => "Unknown API error"
                              end))
           else ret data)
        (fun err => throw (browserRequest_catch err))
  end.

Definition request (this : SlackClient) (method : string) (params : Obj)
  : M SlackApiResponse :=
  recorded (EvRequest method params)
    (match auth_type (config this) with
     | standard => standardRequest this method params
     | browser => browserRequest this method params
     end).

Definition testAuth (this : SlackClient) : M SlackApiResponse :=
  request this "auth.test" [].

(** The options object is handed over as it is. *)
Definition listConversations (this : SlackClient) (options : Obj) : M SlackApiResponse :=
  request this "conversations.list" options.

Definition markConversationRead (this : SlackClient) (channel ts : string)
  : M SlackApiResponse :=
  request this "conversations.mark" (markConversationRead_params channel ts).

Definition getClientCounts (this : SlackClient) : M SlackApiResponse :=
  request this "client.counts" [].

Definition getThreadsView (this : SlackClient) (options : ThreadsViewOptions)
  : M SlackApiResponse :=
  fun h =>
    request this "subscriptions.thread.getView"
            (getThreadsView_params (current_ts_string h) options) h.

Definition getConversationInfo (this : SlackClient) (channel : string)
  : M SlackApiResponse :=
  request this "conversations.info" [("channel", VStr channel)].

Definition getConversationHistory (this : SlackClient) (channel : string)
           (options : HistoryOptions) : M SlackApiResponse :=
  request this "conversations.history" (getConversationHistory_params channel options).

Definition getConversationReplies (this : SlackClient) (channel ts : string)
           (options : HistoryOptions) : M SlackApiResponse :=
  request this "conversations.replies" (getConversationReplies_params channel ts options).

Definition postMessage (this : SlackClient) (channel text : string)
           (options : PostOptions) : M SlackApiResponse :=
  request this "chat.postMessage" (postMessage_params channel text options).

Definition getUserInfo (this : SlackClient) (userId : string) : M SlackApiResponse :=
  request this "users.info" [("user", VStr userId)].

(** The loop of [getUsersInfo]; [users] is the array filled so far. *)
Fixpoint getUsersInfo_loop (this : SlackClient) (userIds : list string)
         (users : list SlackUser) : M (list SlackUser) :=
  match userIds with
  | [] => ret users
  | userId :: rest =>
      users' <- try_catch
                  (response <- getUserInfo this userId ;;
                   match ok response, user response with
                   | true, Some u => ret (users ++ [u])%list
                   | _, _ => ret users
                   end)
                  (fun _ =>
                     emit (EvConsoleError ("Failed to fetch user " ++ userId)) ;;;
                     ret users) ;;
      getUsersInfo_loop this rest users'
  end.

Definition getUsersInfo (this : SlackClient) (userIds : list string)
  : M SlackUsersInfoResponse :=
  users <- getUsersInfo_loop this userIds [] ;;
  ret {| users_ok := true; users := users |}.

Definition openConversation (this : SlackClient) (users : string) : M SlackApiResponse :=
  request this "conversations.open" [("users", VStr users)].

Definition addReaction (this : SlackClient) (channel timestamp name : string)
  : M SlackApiResponse :=
  request this "reactions.add"
          [("channel", VStr channel); ("timestamp", VStr timestamp); ("name", VStr name)].

Definition removeReaction (this : SlackClient) (channel timestamp name : string)
  : M SlackApiResponse :=
  request this "reactions.remove"
          [("channel", VStr channel); ("timestamp", VStr timestamp); ("name", VStr name)].

Definition searchAll (this : SlackClient) (query : string) (options : SearchOptions)
  : M SlackApiResponse :=
  request this "search.all" (searchAll_params query options).

Definition getUploadUrl (this : SlackClient) (filename : string) (length : Num)
  : M SlackApiResponse :=
  request this "files.getUploadURLExternal" (getUploadUrl_params filename length).

Definition uploadToUrl (uploadUrl : string) (fileContent : list byte) (filename : string)
  : M unit :=
  recorded (EvUploadToUrl uploadUrl filename)
    (let formData := [{| fd_name := "file"; fd_blob := fileContent;
                         fd_filename := filename |}] in
     let init := {| http_method := "POST"; headers := [];
                    body := BodyFormData formData |} in
     response <- ask (fun h => fetch w h uploadUrl init) (EvFetch uploadUrl init) ;;
     if negb (resp_ok response) then
       throw (ErrorObj ("File upload failed: HTTP " ++ string_of_Z (resp_status response)))
     else ret tt).

Definition completeUpload (this : SlackClient) (files : list FileEntry)
           (options : CompleteOptions) : M SlackApiResponse :=
  request this "files.completeUploadExternal" (completeUpload_params files options).

(** [options.onProgress?.(step)]. *)
Definition onProgress (options : UploadOptions) (step : string) : M unit :=
  if u_onProgress options then emit (EvProgress step) else ret tt.

(** [options.titles?.[i]]. *)
Definition title_at (options : UploadOptions) (i : nat) : option string :=
  match u_titles options with
  | Some titles => nth_error titles i
  | None => None
  end.

(** [filePath.split('/').pop() || 'file']. *)
Definition upload_filename (filePath : string) : string :=
  if truthy_str (split_pop filePath) then split_pop filePath else "file".

(** The entry pushed for the file at index [i]. *)
Definition make_entry (options : UploadOptions) (i : nat) (file_id : string) : FileEntry :=
  {| id := file_id;
     title := if truthy_opt_str (title_at options i) then title_at options i else None |}.

(** The loop of [uploadFiles] from index [i] on; [rest] holds
    [filePaths[i..]], [total] is [filePaths.length] and [fileEntries]
    the array filled so far. *)
Fixpoint uploadFiles_loop (this : SlackClient) (rest : list string) (i total : nat)
         (options : UploadOptions) (fileEntries : list FileEntry)
  : M (list FileEntry) :=
  match rest with
  | [] => ret fileEntries
  | filePath :: rest' =>
      fileContent <- ask (fun h => arrayBuffer w h filePath) (EvReadFile filePath) ;;
      let filename := upload_filename filePath in
      let length := List.length fileContent in
      onProgress options ("Uploading file " ++ string_of_nat (i + 1) ++ "/"
                          ++ string_of_nat total ++ ": " ++ filename) ;;;
      slot <- getUploadUrl this filename (Int (Z.of_nat length)) ;;
      uploadToUrl (upload_url slot) fileContent filename ;;;
      uploadFiles_loop this rest' (S i) total options
                       (fileEntries ++ [make_entry options i (file_id slot)])%list
  end.

Definition uploadFiles (this : SlackClient) (filePaths : list string)
           (options : UploadOptions) : M SlackApiResponse :=
  fileEntries <- uploadFiles_loop this filePaths 0 (List.length filePaths) options [] ;;
  onProgress options "Finalizing upload..." ;;;
  completeUpload this fileEntries
                 {| c_channel_id := u_channel_id options;
                    c_thread_ts := u_thread_ts options;
                    c_initial_comment := u_initial_comment options |}.

(** ** The mark-read command (src/commands/conversations.ts)

    [timestamp] and [workspace] are the command's options.  The inner
    block yields [None] when the action returns early.  The catch clause
    reads [err.message] between [spinner.fail] and [process.exit], so it
    raises itself, and the action with it, when that reading raises. *)
Definition mark_read_action (channelId : string) (timestamp workspace : option string)
  : M unit :=
  emit (EvSpinner sp_start "Marking conversation as read...") ;;;
  try_catch
    (client <- ask (fun h => getAuthenticatedClient w h workspace) (EvGetClient workspace) ;;
     ts <- (if negb (truthy_opt_str timestamp) then
              emit (EvSpinner sp_text "Fetching latest message...") ;;;
              history <- getConversationHistory client channelId
                           {| h_cursor := None; h_latest := None; h_oldest := None;
                              h_inclusive := None; h_limit := Some (Int 1) |} ;;
              match messages history with
              | Some (m :: _) => ret (Some (ts m))
              | Some [] | None =>
                  emit (EvSpinner sp_succeed
                          ("No messages in channel " ++ em_dash
                           ++ " nothing to mark as read.")) ;;;
                  ret None
              end
            else ret timestamp) ;;
     match ts with
     | None => ret tt
     | Some ts =>
         markConversationRead client channelId ts ;;;
         emit (EvSpinner sp_succeed ("Marked " ++ channelId ++ " as read up to " ++ ts))
     end)
    (fun err =>
       emit (EvSpinner sp_fail "Failed to mark conversation as read") ;;;
       message <- lift (message_property err) ;;
       emit (EvErrorOut message) ;;;
       emit (EvExit 1)).

End Client.

(** ** Reading a history *)

Fixpoint collect {A B : Type} (f : A -> option B) (l : list A) : list B :=
  match l with
  | [] => []
  | x :: l' =>
      match f x with
      | Some y => y :: collect f l'
      | None => collect f l'
      end
  end.

(** Events of the transports, below the level of the client's methods. *)
Definition transport (ev : Event) : bool :=
  match ev with
  | EvApiCall _ _ _ _ | EvFetch _ _ _ => true
  | _ => false
  end.

(** Every invocation of [request]: method, parameter mapping, outcome. *)
Definition any_request (ev : Event) : option (string * Obj * Result SlackApiResponse) :=
  match ev with
  | EvRequest m p r => Some (m, p, r)
  | _ => None
  end.

Definition all_requests (evs : list Event) : list (string * Obj * Result SlackApiResponse) :=
  collect any_request evs.

(** The invocations of [request] for one method. *)
Definition request_of (method : string) (ev : Event)
  : option (Obj * Result SlackApiResponse) :=
  match ev with
  | EvRequest m p r => if String.eqb m method then Some (p, r) else None
  | _ => None
  end.

Definition requests_of (method : string) (evs : list Event)
  : list (Obj * Result SlackApiResponse) :=
  collect (request_of method) evs.

Definition finalize_calls (evs : list Event) : list (Obj * Result SlackApiResponse) :=
  requests_of "files.completeUploadExternal" evs.

Definition slot_calls (evs : list Event) : list (Obj * Result SlackApiResponse) :=
  requests_of "files.getUploadURLExternal" evs.

Definition lookups (evs : list Event) : list (Obj * Result SlackApiResponse) :=
  requests_of "users.info" evs.

Definition mark_calls (evs : list Event) : list (Obj * Result SlackApiResponse) :=
  requests_of "conversations.mark" evs.

(** The slot requests that succeeded, in order: the mapping sent and
    the response. *)
Definition slot_granted (ev : Event) : option (Obj * SlackApiResponse) :=
  match ev with
  | EvRequest m p (Ok resp) =>
      if String.eqb m "files.getUploadURLExternal" then Some (p, resp) else None
  | _ => None
  end.

Definition slots_granted (evs : list Event) : list (Obj * SlackApiResponse) :=
  collect slot_granted evs.

Definition transfer_done (ev : Event) : option (string * string) :=
  match ev with
  | EvUploadToUrl u f (Ok _) => Some (u, f)
  | _ => None
  end.

(** The transfers that succeeded. *)
Definition transfers_done (evs : list Event) : list (string * string) :=
  collect transfer_done evs.

(** The failure a method invocation or a file read ended with. *)
Definition failure_of (ev : Event) : option Thrown :=
  match ev with
  | EvRequest _ _ (Throw e) => Some e
  | EvUploadToUrl _ _ (Throw e) => Some e
  | EvReadFile _ (Throw e) => Some e
  | EvGetClient _ (Throw e) => Some e
  | _ => None
  end.

Definition failures (evs : list Event) : list Thrown := collect failure_of evs.

(** The failure of a slot request or of a byte transfer. *)
Definition upload_failure (ev : Event) : option Thrown :=
  match ev with
  | EvRequest m _ (Throw e) =>
      if String.eqb m "files.getUploadURLExternal" then Some e else None
  | EvUploadToUrl _ _ (Throw e) => Some e
  | _ => None
  end.

Definition upload_failures (evs : list Event) : list Thrown :=
  collect upload_failure evs.

(** The user a lookup resolved to, if any: the test of [getUsersInfo]. *)
Definition resolved (r : Result SlackApiResponse) : option SlackUser :=
  match r with
  | Ok resp => if ok resp then user resp else None
  | Throw _ => None
  end.

Definition lookup_failed (r : Result SlackApiResponse) : bool :=
  match resolved r with
  | Some _ => false
  | None => true
  end.

Definition lookup_raised (r : Result SlackApiResponse) : bool := negb (is_ok r).

Definition user_param (userId : string) : Obj := [("user", VStr userId)].

Definition form_bodies (evs : list Event) : list (list (string * string)) :=
  collect (fun ev => match ev with
                     | EvFetch _ init _ =>
                         match body init with
                         | BodyURLSearchParams fields => Some fields
                         | BodyFormData _ => None
                         end
                     | _ => None
                     end) evs.

Definition api_calls (evs : list Event) : list (string * Obj) :=
  collect (fun ev => match ev with
                     | EvApiCall _ m p _ => Some (m, p)
                     | _ => None
                     end) evs.

Definition exits (evs : list Event) : list Z :=
  collect (fun ev => match ev with EvExit c => Some c | _ => None end) evs.

Definition console_errors (evs : list Event) : list string :=
  collect (fun ev => match ev with EvConsoleError m => Some m | _ => None end) evs.

(** The entries of the finalize call for the slots obtained, file by file. *)
Fixpoint entries_from (options : UploadOptions) (i : nat) (slots : list SlackApiResponse)
  : list FileEntry :=
  match slots with
  | [] => []
  | slot :: rest => make_entry options i (file_id slot) :: entries_from options (S i) rest
  end.

Definition complete_options (options : UploadOptions) : CompleteOptions :=
  {| c_channel_id := u_channel_id options;
     c_thread_ts := u_thread_ts options;
     c_initial_comment := u_initial_comment options |}.

(** A reading of the history that ignores the transports' events. *)
Definition above_transport {B : Type} (f : Event -> option B) : Prop :=
  forall ev, transport ev = true -> f ev = None.

(** A mapping that binds no key to [undefined]. *)
Definition defined_values (o : Obj) : Prop :=
  forall k, Js.get k o <> Some VUndef.

(** ** Sample configurations and worlds, used to run the client *)

Definition browser_config : WorkspaceConfig :=
  BrowserAuthConfig "T1" "acme" "https://acme.slack.com" "xoxd-1/2" "xoxc-1".

Definition standard_config : WorkspaceConfig :=
  StandardAuthConfig "T1" "acme" "xoxb-1" bot.

Definition ada : SlackUser :=
  {| user_id := "U1"; user_name := Some "ada"; real_name := None; profile := None |}.

Definition plain_response : SlackApiResponse :=
  {| ok := true; error := None; user := None; messages := None;
     upload_url := ""; file_id := "" |}.

Definition slot_response_F1 : SlackApiResponse :=
  {| ok := true; error := None; user := None; messages := None;
     upload_url := "https://files.example/up/1"; file_id := "F1" |}.

Definition hello : SlackMessage :=
  {| msg_type := "message"; msg_user := Some "U1"; bot_id := None; text := "hello";
     ts := "1700000000.000100"; thread_ts := None; reply_count := None |}.

(** A world in which the server answers every call with [resp], every
    file holds the three bytes of [abc], and the stored workspace uses
    browser authentication. *)
Definition answering (resp : SlackApiResponse) : World :=
  {| apiCall := fun _ _ _ _ => Ok resp;
     fetch := fun _ _ _ => Ok {| resp_ok := true; resp_status := 200; resp_json := Ok resp |};
     arrayBuffer := fun _ _ => Ok [x61; x62; x63];
     getAuthenticatedClient := fun _ _ => Ok (new_SlackClient browser_config) |}.

(** As [answering], but the upload destination refuses the bytes. *)
Definition refusing_transfers (resp : SlackApiResponse) : World :=
  {| apiCall := fun _ _ _ _ => Ok resp;
     fetch := fun _ url _ =>
       if String.eqb url (upload_url resp)
       then Ok {| resp_ok := false; resp_status := 500; resp_json := Ok resp |}
       else Ok {| resp_ok := true; resp_status := 200; resp_json := Ok resp |};
     arrayBuffer := fun _ _ => Ok [x61; x62; x63];
     getAuthenticatedClient := fun _ _ => Ok (new_SlackClient browser_config) |}.

(** A server that knows the user [U1] only. *)
Definition knowing_U1 : World :=
  {| apiCall := fun _ _ _ p =>
       match Js.get "user" p with
       | Some (VStr "U1") => Ok {| ok := true; error := None; user := Some ada;
                                   messages := None; upload_url := ""; file_id := "" |}
       | _ => Throw (ErrorObj "user_not_found")
       end;
     fetch := fun _ _ init =>
       match body init with
       | BodyURLSearchParams fields =>
           match form_get "user" fields with
           | Some "U1" =>
               Ok {| resp_ok := true; resp_status := 200;
                     resp_json := Ok {| ok := true; error := None; user := Some ada;
                                        messages := None; upload_url := ""; file_id := "" |} |}
           | _ =>
               Ok {| resp_ok := true; resp_status := 200;
                     resp_json := Ok {| ok := false; error := Some "user_not_found";
                                        user := None; messages := None;
                                        upload_url := ""; file_id := "" |} |}
           end
       | BodyFormData _ => Throw (ErrorObj "unexpected")
       end;
     arrayBuffer := fun _ _ => Ok [];
     getAuthenticatedClient := fun _ _ => Ok (new_SlackClient browser_config) |}.

Definition no_options : HistoryOptions :=
  {| h_cursor := None; h_latest := None; h_oldest := None;
     h_inclusive := None; h_limit := None |}.

Definition no_upload_options : UploadOptions :=
  {| u_channel_id := Some "C1"; u_thread_ts := None; u_titles := Some ["first"; ""];
     u_initial_comment := None; u_onProgress := true |}.

(** ** Further readings of a history *)

(** The calls of [fetch]: address and request. *)
Definition fetches (evs : list Event) : list (string * FetchInit) :=
  collect (fun ev => match ev with
                     | EvFetch url init _ => Some (url, init)
                     | _ => None
                     end) evs.

(** The calls of the library client: token, method, mapping. *)
Definition api_calls_with_token (evs : list Event) : list (string * string * Obj) :=
  collect (fun ev => match ev with
                     | EvApiCall token m p _ => Some (token, m, p)
                     | _ => None
                     end) evs.

Definition progress_steps (evs : list Event) : list string :=
  collect (fun ev => match ev with EvProgress s => Some s | _ => None end) evs.

(** The contents of the files that could be read, in order. *)
Definition file_read (ev : Event) : option (list byte) :=
  match ev with
  | EvReadFile _ (Ok content) => Some content
  | _ => None
  end.

Definition files_read (evs : list Event) : list (list byte) := collect file_read evs.

(** The multipart bodies sent: address and the bytes of each part. *)
Definition form_data_sent (evs : list Event) : list (string * list (list byte)) :=
  collect (fun ev => match ev with
                     | EvFetch url init _ =>
                         match body init with
                         | BodyFormData entries => Some (url, map fd_blob entries)
                         | BodyURLSearchParams _ => None
                         end
                     | _ => None
                     end) evs.

(** The steps reported while the files from index [i] on are uploaded. *)
Fixpoint upload_steps (i total : nat) (filePaths : list string) : list string :=
  match filePaths with
  | [] => []
  | filePath :: rest =>
      ("Uploading file " ++ string_of_nat (i + 1) ++ "/" ++ string_of_nat total
       ++ ": " ++ upload_filename filePath)
        :: upload_steps (S i) total rest
  end.

Fixpoint chars (s : string) : list ascii :=
  match s with
  | EmptyString => []
  | String c s' => c :: chars s'
  end.

(** An optional string or number that tests false counts as absent. *)
Definition absent_if_falsy_str (o : option string) : option string :=
  if truthy_opt_str o then o else None.

Definition absent_if_falsy_num (o : option Num) : option Num :=
  if truthy_opt_num o then o else None.

(** ** The read command (src/commands/conversations.ts) *)

(** [Set<string>.add]: insertion order, no repetition. *)
Definition set_add (x : string) (s : list string) : list string :=
  if existsb (String.eqb x) s then s else (s ++ [x])%list.

(** [Map<string, SlackUser>.set]: overwrite in place, or append. *)
Fixpoint map_set (k : string) (v : SlackUser) (m : list (string * SlackUser))
  : list (string * SlackUser) :=
  match m with
  | [] => [(k, v)]
  | (k', v') :: m' =>
      if String.eqb k k' then (k', v) :: m' else (k', v') :: map_set k v m'
  end.

(** The options of the command; [r_limit] is [parseInt(options.limit)]. *)
Record ReadOptions : Type := {
  r_threadTs : option string;
  r_excludeReplies : bool;
  r_limit : Num;
  r_oldest : option string;
  r_latest : option string;
  r_workspace : option string;
  r_json : bool
}.

Record JsonUser : Type := {
  ju_id : string;
  ju_name : option string;
  ju_real_name : option string;
  ju_email : option string
}.

(** What the command hands to [console.log]: the object it serializes
    (the reactions of a message are not part of the message type here),
    or the arguments of [formatConversationHistory]. *)
Inductive ReadOutput : Type :=
| OutJson (channel_id : string) (message_count : nat) (messages : list SlackMessage)
          (users : list JsonUser)
| OutText (channelId : string) (messages : list SlackMessage)
          (users : list (string * SlackUser)).

Definition out_messages (out : ReadOutput) : list SlackMessage :=
  match out with
  | OutJson _ _ messages _ => messages
  | OutText _ messages _ => messages
  end.

(** [!msg.thread_ts || msg.thread_ts === msg.ts]. *)
Definition top_level (msg : SlackMessage) : bool :=
  match thread_ts msg with
  | Some t => negb (truthy_str t) || String.eqb t (ts msg)
  | None => true
  end.

(** [messages.forEach(msg => { if (msg.user) userIds.add(msg.user) })]. *)
Definition collect_userIds (messages : list SlackMessage) : list string :=
  fold_left (fun userIds msg =>
               match msg_user msg with
               | Some u => if truthy_str u then set_add u userIds else userIds
               | None => userIds
               end) messages [].

(** [usersResponse.users.forEach(user => users.set(user.id, user))]. *)
Definition users_by_id (us : list SlackUser) : list (string * SlackUser) :=
  fold_left (fun m u => map_set (user_id u) u m) us [].

Definition json_user (u : SlackUser) : JsonUser :=
  {| ju_id := user_id u; ju_name := user_name u; ju_real_name := real_name u;
     ju_email := match profile u with
                 | Some p => email p
                 | None => None
                 end |}.

Definition read_options (options : ReadOptions) : HistoryOptions :=
  {| h_cursor := None; h_latest := r_latest options; h_oldest := r_oldest options;
     h_inclusive := None; h_limit := Some (r_limit options) |}.

(** The first block of the action: the replies of the thread when a
    thread timestamp is given, the history of the channel otherwise,
    without the threaded replies when asked so. *)
Definition read_messages (w : World) (client : SlackClient) (channelId : string)
           (options : ReadOptions) : M (list SlackMessage) :=
  let history :=
    emit (EvSpinner sp_text "Fetching conversation history...") ;;;
    response <- getConversationHistory w client channelId (read_options options) ;;
    let messages := match messages response with
                    | Some l => l
                    | None => []
                    end in
    ret (if r_excludeReplies options then filter top_level messages else messages) in
  match r_threadTs options with
  | Some threadTs =>
      if truthy_str threadTs then
        emit (EvSpinner sp_text "Fetching thread replies...") ;;;
        response <- getConversationReplies w client channelId threadTs
                      (read_options options) ;;
        ret (match messages response with
             | Some l => l
             | None => []
             end)
      else history
  | None => history
  end.

(** The block that fetches the users of the messages. *)
Definition read_users (w : World) (client : SlackClient) (messages : list SlackMessage)
  : M (list (string * SlackUser)) :=
  let userIds := collect_userIds messages in
  if Nat.ltb 0 (List.length userIds) then
    emit (EvSpinner sp_text "Fetching user information...") ;;;
    usersResponse <- getUsersInfo w client userIds ;;
    ret (users_by_id (users usersResponse))
  else ret [].

(** The action of the command.  Its result is what was printed, [None]
    when it ended with [process.exit(1)]; it raises when its catch clause
    does. *)
Definition read_action (w : World) (channelId : string) (options : ReadOptions)
  : M (option ReadOutput) :=
  emit (EvSpinner sp_start "Fetching messages...") ;;;
  try_catch
    (client <- ask (fun h => getAuthenticatedClient w h (r_workspace options))
                   (EvGetClient (r_workspace options)) ;;
     messages <- read_messages w client channelId options ;;
     let messages := rev messages in
     users <- read_users w client messages ;;
     emit (EvSpinner sp_succeed
             ("Found " ++ string_of_nat (List.length messages) ++ " messages")) ;;;
     ret (Some (if r_json options
                then OutJson channelId (List.length messages) messages
                             (map (fun kv => json_user (snd kv)) users)
                else OutText channelId messages users)))
    (fun err =>
       emit (EvSpinner sp_fail "Failed to fetch messages") ;;;
       message <- lift (message_property err) ;;
       emit (EvErrorOut message) ;;;
       emit (EvExit 1) ;;;
       ret None).

(** The request the read command starts with. *)
Definition read_request (channelId : string) (options : ReadOptions) : string * Obj :=
  match absent_if_falsy_str (r_threadTs options) with
  | Some threadTs =>
      ("conversations.replies",
       getConversationReplies_params channelId threadTs (read_options options))
  | None =>
      ("conversations.history",
       getConversationHistory_params channelId (read_options options))
  end.

(** The messages the read command shows for a response. *)
Definition read_shown (options : ReadOptions) (response : SlackApiResponse)
  : list SlackMessage :=
  let received := match messages response with
                  | Some l => l
                  | None => []
                  end in
  rev (match absent_if_falsy_str (r_threadTs options) with
       | Some _ => received
       | None => if r_excludeReplies options then filter top_level received else received
       end).

(** ** The list command (src/commands/conversations.ts)

    The options object the command hands to [listConversations]:
    [{ types: options.types, limit: parseInt(options.limit),
       exclude_archived: options.excludeArchived }]. *)
Definition list_options (types : string) (limit : Num) (excludeArchived : bool) : Obj :=
  [("types", VStr types); ("limit", VNum limit);
   ("exclude_archived", VBool excludeArchived)].

(** A world whose library client raises a failure that already carries
    the normalized prefix. *)
Definition raising (message : string) : World :=
  {| apiCall := fun _ _ _ _ => Throw (ErrorObj message);
     fetch := fun _ _ _ => Throw (ErrorObj message);
     arrayBuffer := fun _ _ => Throw (ErrorObj message);
     getAuthenticatedClient := fun _ _ => Ok (new_SlackClient standard_config) |}.

Definition thread_reply : SlackMessage :=
  {| msg_type := "message"; msg_user := Some "U1"; bot_id := None; text := "re: hello";
     ts := "1700000000.000200"; thread_ts := Some "1700000000.000100";
     reply_count := None |}.

(** A world without a stored workspace: looking the client up raises
    [e]. *)
Definition without_client (e : Thrown) : World :=
  {| apiCall := fun _ _ _ _ => Ok plain_response;
     fetch := fun _ _ _ =>
       Ok {| resp_ok := true; resp_status := 200; resp_json := Ok plain_response |};
     arrayBuffer := fun _ _ => Ok [];
     getAuthenticatedClient := fun _ _ => Throw e |}.

(** * Properties *)

(** ** Objects and form bodies *)

Section ObjectFacts.

Lemma get_None_iff (k : string) (o : Obj) :
  Js.get k o = None <-> ~ In k (keys o).
Proof.
  induction o as [| [k' v] o IH]; simpl.
  - tauto.
  - destruct (String.eqb_spec k k') as [-> | Hne].
    + split; [discriminate | intros H; exfalso; apply H; now left].
    + rewrite IH. split.
      * intros H [Heq | Hin]; [now apply Hne | now apply H].
      * intros H Hin. apply H. now right.
Qed.

Lemma get_set_same (k : string) (v : Val) (o : Obj) :
  Js.get k (Js.set k v o) = Some v.
Proof.
  induction o as [| [k' v'] o IH]; simpl.
  - now rewrite String.eqb_refl.
  - destruct (String.eqb_spec k k') as [-> | Hne]; simpl.
    + now rewrite String.eqb_refl.
    + destruct (String.eqb_spec k k'); [contradiction | exact IH].
Qed.

Lemma get_set_other (k k' : string) (v : Val) (o : Obj) :
  k <> k' -> Js.get k' (Js.set k v o) = Js.get k' o.
Proof.
  intros Hne. induction o as [| [k0 v0] o IH]; simpl.
  - destruct (String.eqb_spec k' k); [now subst | reflexivity].
  - destruct (String.eqb_spec k k0) as [-> | Hk]; simpl.
    + destruct (String.eqb_spec k' k0); [now subst | reflexivity].
    + destruct (String.eqb_spec k' k0); [reflexivity | exact IH].
Qed.

Lemma keys_set (k k' : string) (v : Val) (o : Obj) :
  In k' (keys (Js.set k v o)) <-> k' = k \/ In k' (keys o).
Proof.
  induction o as [| [k0 v0] o IH]; simpl.
  - intuition.
  - destruct (String.eqb_spec k k0) as [-> | Hk]; simpl.
    + intuition.
    + rewrite IH. intuition.
Qed.

(** Assigning a list of properties one after the other. *)

Lemma keys_assign (k : string) (l : list (string * Val)) (target : Obj) :
  In k (keys (fold_left (fun acc kv => Js.set (fst kv) (snd kv) acc) l target))
  <-> In k (keys target) \/ In k (keys l).
Proof.
  revert target. induction l as [| [k0 v0] s IH]; intros target; simpl.
  - tauto.
  - rewrite IH, keys_set. intuition.
Qed.

Lemma get_assign_absent (k : string) (l : list (string * Val)) (target : Obj) :
  ~ In k (keys l) ->
  Js.get k (fold_left (fun acc kv => Js.set (fst kv) (snd kv) acc) l target)
  = Js.get k target.
Proof.
  revert target. induction l as [| [k0 v0] s IH]; intros target Hnot.
  - reflexivity.
  - simpl in *. rewrite IH by tauto.
    apply get_set_other. intros ->. apply Hnot. now left.
Qed.

Lemma get_assign_present (k : string) (v : Val) (l : list (string * Val)) (target : Obj) :
  Js.wf l -> Js.get k l = Some v ->
  Js.get k (fold_left (fun acc kv => Js.set (fst kv) (snd kv) acc) l target) = Some v.
Proof.
  revert target. induction l as [| [k0 v0] s IH]; intros target Hwf Hget.
  - discriminate.
  - unfold Js.wf in Hwf. simpl in Hwf. apply NoDup_cons_iff in Hwf as [Hnotin Hwf].
    simpl in Hget. simpl.
    destruct (String.eqb_spec k k0) as [-> | Hne].
    + injection Hget as ->.
      rewrite get_assign_absent by exact Hnotin. apply get_set_same.
    + now apply IH.
Qed.

(** The order of enumeration.  It lists every property once, so reading
    a key gives the same value before and after. *)

Lemma get_app (k : string) (l1 l2 : Obj) :
  Js.get k (l1 ++ l2)%list
  = match Js.get k l1 with Some v => Some v | None => Js.get k l2 end.
Proof.
  induction l1 as [| [k' v] l1 IH]; simpl.
  - reflexivity.
  - destruct (String.eqb k k'); [reflexivity | exact IH].
Qed.

Lemma indexed_index (o : Obj) (y : N * (string * Val)) :
  In y (Js.indexed o) -> Js.array_index (fst (snd y)) = Some (fst y).
Proof.
  induction o as [| kv o IH]; simpl.
  - intros [].
  - destruct (Js.array_index (fst kv)) eqn:E.
    + intros [<- | Hin]; [exact E | now apply IH].
    + exact IH.
Qed.

Lemma insert_by_index_perm (x : N * (string * Val)) (l : list (N * (string * Val))) :
  Permutation (Js.insert_by_index x l) (x :: l).
Proof.
  induction l as [| y l IH]; simpl.
  - apply Permutation_refl.
  - destruct (N.leb (fst x) (fst y)).
    + apply Permutation_refl.
    + eapply perm_trans; [apply perm_skip, IH | apply perm_swap].
Qed.

Lemma sort_by_index_perm (l : list (N * (string * Val))) :
  Permutation (Js.sort_by_index l) l.
Proof.
  induction l as [| x l IH]; simpl.
  - apply perm_nil.
  - eapply perm_trans; [apply insert_by_index_perm | now apply perm_skip].
Qed.

Lemma entries_perm (o : Obj) : Permutation (Js.entries o) o.
Proof.
  unfold Js.entries.
  apply perm_trans
    with (map snd (Js.indexed o) ++ filter (fun kv => negb (Js.is_index kv)) o)%list.
  - apply Permutation_app_tail, Permutation_map, sort_by_index_perm.
  - induction o as [| kv o IH]; simpl.
    + apply perm_nil.
    + unfold Js.is_index at 1. destruct (Js.array_index (fst kv)); simpl.
      * now apply perm_skip.
      * apply Permutation_sym, Permutation_cons_app, Permutation_sym, IH.
Qed.

Lemma get_insert_other (k : string) (x : N * (string * Val))
      (l : list (N * (string * Val))) :
  fst (snd x) <> k ->
  Js.get k (map snd (Js.insert_by_index x l)) = Js.get k (map snd l).
Proof.
  intros Hne. destruct x as [n [kx vx]]. simpl in Hne.
  induction l as [| [m [ky vy]] l IH]; simpl.
  - destruct (String.eqb_spec k kx); [now subst | reflexivity].
  - destruct (N.leb n m); simpl.
    + destruct (String.eqb_spec k kx); [now subst | reflexivity].
    + destruct (String.eqb k ky); [reflexivity | exact IH].
Qed.

Lemma get_insert_same (x : N * (string * Val)) (l : list (N * (string * Val))) :
  (forall y, In y l -> fst (snd y) = fst (snd x) -> fst y = fst x) ->
  Js.get (fst (snd x)) (map snd (Js.insert_by_index x l)) = Some (snd (snd x)).
Proof.
  destruct x as [n [kx vx]]. simpl.
  induction l as [| [m [ky vy]] l IH]; intros Hsame; simpl.
  - now rewrite String.eqb_refl.
  - destruct (N.leb n m) eqn:E; simpl.
    + now rewrite String.eqb_refl.
    + destruct (String.eqb_spec kx ky) as [-> | Hne].
      * specialize (Hsame (m, (ky, vy)) (or_introl eq_refl) eq_refl). simpl in Hsame.
        subst m. rewrite N.leb_refl in E. discriminate.
      * apply IH. intros y Hin. apply Hsame. now right.
Qed.

Lemma get_sorted (k : string) (o : Obj) :
  Js.get k (map snd (Js.sort_by_index (Js.indexed o)))
  = match Js.array_index k with Some _ => Js.get k o | None => None end.
Proof.
  induction o as [| [k' v] o IH]; simpl.
  - now destruct (Js.array_index k).
  - destruct (Js.array_index k') as [n |] eqn:E; simpl.
    + destruct (String.eqb_spec k k') as [-> | Hne].
      * rewrite E.
        apply (get_insert_same (n, (k', v))). simpl. intros y Hin Hk.
        apply (Permutation_in _ (sort_by_index_perm _)) in Hin.
        apply indexed_index in Hin. congruence.
      * rewrite get_insert_other by (simpl; congruence). exact IH.
    + rewrite IH. destruct (Js.array_index k) eqn:Ek; [| reflexivity].
      destruct (String.eqb_spec k k'); [congruence | reflexivity].
Qed.

Lemma get_other_keys (k : string) (o : Obj) :
  Js.get k (filter (fun kv => negb (Js.is_index kv)) o)
  = match Js.array_index k with Some _ => None | None => Js.get k o end.
Proof.
  induction o as [| [k' v] o IH]; simpl.
  - now destruct (Js.array_index k).
  - unfold Js.is_index at 1. simpl.
    destruct (Js.array_index k') eqn:E; simpl.
    + rewrite IH. destruct (Js.array_index k) eqn:Ek; [reflexivity |].
      destruct (String.eqb_spec k k'); [congruence | reflexivity].
    + destruct (String.eqb_spec k k') as [-> | Hne].
      * now rewrite E.
      * exact IH.
Qed.

Lemma get_entries (k : string) (o : Obj) : Js.get k (Js.entries o) = Js.get k o.
Proof.
  unfold Js.entries. rewrite get_app, get_sorted, get_other_keys.
  destruct (Js.array_index k); [now destruct (Js.get k o) | reflexivity].
Qed.

Lemma keys_entries (k : string) (o : Obj) :
  In k (keys (Js.entries o)) <-> In k (keys o).
Proof.
  split; intros Hin.
  - destruct (in_dec string_dec k (keys o)) as [H | H]; [exact H |].
    apply get_None_iff in H. rewrite <- get_entries in H.
    apply get_None_iff in H. contradiction.
  - destruct (in_dec string_dec k (keys (Js.entries o))) as [H | H]; [exact H |].
    apply get_None_iff in H. rewrite get_entries in H.
    apply get_None_iff in H. contradiction.
Qed.

Lemma wf_entries (o : Obj) : Js.wf o -> Js.wf (Js.entries o).
Proof.
  unfold Js.wf, keys. intros Hwf.
  eapply Permutation_NoDup; [| exact Hwf].
  apply Permutation_sym, Permutation_map, entries_perm.
Qed.

Lemma keys_spread (k : string) (source target : Obj) :
  In k (keys (spread target source)) <-> In k (keys target) \/ In k (keys source).
Proof.
  unfold spread. rewrite keys_assign, keys_entries. reflexivity.
Qed.


Lemma get_spread_present (k : string) (v : Val) (source target : Obj) :
  Js.wf source -> Js.get k source = Some v ->
  Js.get k (spread target source) = Some v.
Proof.
  intros Hwf Hget. unfold spread. apply get_assign_present.
  - now apply wf_entries.
  - now rewrite get_entries.
Qed.

Lemma form_get_map (k : string) (o : Obj) :
  form_get k (map (fun kv => (fst kv, String_ (snd kv))) o)
  = option_map String_ (Js.get k o).
Proof.
  induction o as [| [k' v] o IH]; simpl.
  - reflexivity.
  - destruct (String.eqb k k'); [reflexivity | exact IH].
Qed.

Lemma form_get_URLSearchParams (k : string) (o : Obj) :
  form_get k (URLSearchParams o) = option_map String_ (Js.get k o).
Proof.
  unfold URLSearchParams. now rewrite form_get_map, get_entries.
Qed.


End ObjectFacts.

(** The mappings built by the conditional assignments never bind a key
    to [undefined]. *)














(** ** Histories *)

Lemma collect_app {A B : Type} (f : A -> option B) (l1 l2 : list A) :
  collect f (l1 ++ l2) = (collect f l1 ++ collect f l2)%list.
Proof.
  induction l1 as [| x l1 IH]; simpl.
  - reflexivity.
  - destruct (f x); simpl; now rewrite IH.
Qed.

Lemma collect_transport {B : Type} (f : Event -> option B) (evs : list Event) :
  (forall ev, transport ev = true -> f ev = None) ->
  forallb transport evs = true -> collect f evs = [].
Proof.
  intros Hf. induction evs as [| ev evs IH]; simpl.
  - reflexivity.
  - intros H. apply andb_true_iff in H as [Hev Hevs].
    rewrite (Hf ev Hev). now apply IH.
Qed.

Ltac above := intros [] ?; simpl in *; try reflexivity; discriminate.

Lemma above_any_request : above_transport any_request.
Proof. above. Qed.

Lemma above_request_of method : above_transport (request_of method).
Proof. above. Qed.

Lemma above_slot_granted : above_transport slot_granted.
Proof. above. Qed.

Lemma above_transfer_done : above_transport transfer_done.
Proof. above. Qed.

Lemma above_failure_of : above_transport failure_of.
Proof. above. Qed.

(** ** The transports *)

Lemma standardRequest_transport w this method params h :
  forallb transport (snd (standardRequest w this method params h)) = true.
Proof.
  unfold standardRequest. destruct (webClient this) as [wc |]; [| reflexivity].
  unfold try_catch, ask, throw.
  destruct (apiCall w h (wc_token wc) method params); reflexivity.
Qed.

Lemma browserRequest_transport w this method params h :
  forallb transport (snd (browserRequest w this method params h)) = true.
Proof.
  unfold browserRequest. destruct (config this); [reflexivity |].
  unfold try_catch, bind, ask, throw, lift, ret.
  destruct (fetch w h _ _) as [response | e]; [| reflexivity].
  destruct (resp_ok response); simpl; [| reflexivity].
  destruct (resp_json response) as [data | e]; simpl; [| reflexivity].
  destruct (ok data); reflexivity.
Qed.

(** What [request] adds to the history: the events of the transport it
    chose, then the record of the invocation with its outcome. *)
Lemma request_run w this method params h :
  exists tevs,
    snd (request w this method params h)
    = (tevs ++ [EvRequest method params (fst (request w this method params h))])%list
    /\ forallb transport tevs = true.
Proof.
  unfold request, recorded.
  destruct (auth_type (config this)).
  - pose proof (standardRequest_transport w this method params h) as Ht.
    destruct (standardRequest w this method params h) as [r evs]. simpl in *. eauto.
  - pose proof (browserRequest_transport w this method params h) as Ht.
    destruct (browserRequest w this method params h) as [r evs]. simpl in *. eauto.
Qed.

Lemma collect_request {B : Type} (f : Event -> option B) w this method params h :
  above_transport f ->
  collect f (snd (request w this method params h))
  = match f (EvRequest method params (fst (request w this method params h))) with
    | Some y => [y]
    | None => []
    end.
Proof.
  intros Hf. destruct (request_run w this method params h) as (tevs & -> & Ht).
  rewrite collect_app, (collect_transport f tevs Hf Ht). reflexivity.
Qed.

(** The failure of [browserRequest] is always an [Error] whose message
    carries the normalized prefix, whatever was raised inside. *)
Lemma browserRequest_catch_prefixed (err : Thrown) :
  exists m, browserRequest_catch err = ErrorObj m
            /\ startsWith m "Slack API error:" = true.
Proof.
  destruct err as [m | v]; simpl.
  - destruct (startsWith m "Slack API error:") eqn:E; eauto.
  - eauto.
Qed.

Ltac caught :=
  match goal with
  | |- Throw (browserRequest_catch ?x) = Throw _ -> _ =>
      intros He; exists x; congruence
  end.

(** Under a browser configuration every failure that leaves
    [browserRequest] has passed through its catch clause. *)
Lemma browserRequest_failure_wrapped w this wid wname url xoxd xoxc method params h e :
  config this = BrowserAuthConfig wid wname url xoxd xoxc ->
  fst (browserRequest w this method params h) = Throw e ->
  exists err, e = browserRequest_catch err.
Proof.
  intros Hc. unfold browserRequest. rewrite Hc.
  unfold try_catch, bind, ask, throw, lift, ret.
  destruct (fetch w h _ _) as [response | e0]; cbn [fst snd negb].
  - destruct (resp_ok response); cbn [fst snd negb].
    + destruct (resp_json response) as [data | e0]; cbn [fst snd negb].
      * destruct (ok data); cbn [fst snd negb]; [discriminate | caught].
      * caught.
    + caught.
  - caught.
Qed.

(** C3. The failure wrapping of the browser transport is idempotent: an
    [Error] whose message already starts with "Slack API error:" is
    raised again unchanged; for every failure, wrapping the wrapped
    failure once more changes neither the failure nor its message; and a
    failure raised by [browserRequest] itself, sent through the wrapping
    again, comes out as it went in. *)
Theorem browserRequest_catch_idempotent :
  (forall m, startsWith m "Slack API error:" = true ->
             browserRequest_catch (ErrorObj m) = ErrorObj m)
  /\ (forall err,
         browserRequest_catch (browserRequest_catch err) = browserRequest_catch err
         /\ message_of (browserRequest_catch (browserRequest_catch err))
            = message_of (browserRequest_catch err))
  /\ (forall w this wid wname url xoxd xoxc method params h e,
         config this = BrowserAuthConfig wid wname url xoxd xoxc ->
         fst (browserRequest w this method params h) = Throw e ->
         browserRequest_catch e = e).
Proof.
  assert (Hkeep : forall m, startsWith m "Slack API error:" = true ->
                            browserRequest_catch (ErrorObj m) = ErrorObj m).
  { intros m Hm. simpl. now rewrite Hm. }
  assert (Hidem : forall err, browserRequest_catch (browserRequest_catch err)
                              = browserRequest_catch err).
  { intros err. destruct (browserRequest_catch_prefixed err) as (m & -> & Hm).
    now apply Hkeep. }
  split; [exact Hkeep | split].
  - intros err. split; [apply Hidem | now rewrite Hidem].
  - intros w this wid wname url xoxd xoxc method params h e Hc He.
    destruct (browserRequest_failure_wrapped w this wid wname url xoxd xoxc
                                             method params h e Hc He) as [err ->].
    apply Hidem.
Qed.

Example browserRequest_catch_samples :
  browserRequest_catch (ErrorObj "HTTP error! status: 500")
  = ErrorObj "Slack API error: HTTP error! status: 500"
  /\ browserRequest_catch (ErrorObj "Slack API error: channel_not_found")
     = ErrorObj "Slack API error: channel_not_found"
  /\ browserRequest_catch (ThrownVal (VStr "socket closed"))
     = ErrorObj "Slack API error: socket closed".
Proof. repeat split. Qed.

(** ** The form body of the browser transport *)

Lemma browserRequest_form_bodies w this wid wname url xoxd xoxc method params h :
  config this = BrowserAuthConfig wid wname url xoxd xoxc ->
  form_bodies (snd (browserRequest w this method params h)) = [formBody xoxc params].
Proof.
  intros Hc. unfold browserRequest. rewrite Hc.
  unfold try_catch, bind, ask, throw, lift, ret.
  destruct (fetch w h _ _) as [response | e]; [| reflexivity].
  destruct (resp_ok response); simpl; [| reflexivity].
  destruct (resp_json response) as [data | e]; simpl; [| reflexivity].
  destruct (ok data); reflexivity.
Qed.

Lemma formBody_absent_iff (xoxc k : string) (params : Obj) :
  form_get k (formBody xoxc params) = None
  <-> k <> "token" /\ Js.get k params = None.
Proof.
  unfold formBody. rewrite form_get_URLSearchParams.
  destruct (Js.get k (spread [("token", VStr xoxc)] params)) eqn:E; simpl.
  - split; [discriminate |]. intros [Hk Hget]. exfalso.
    apply get_None_iff in Hget.
    assert (Hin : In k (keys (spread [("token", VStr xoxc)] params))).
    { destruct (in_dec string_dec k (keys (spread [("token", VStr xoxc)] params)))
        as [Hin | Hnot]; [exact Hin |].
      apply get_None_iff in Hnot. congruence. }
    apply keys_spread in Hin as [[Ht | []] | Hin]; [now apply Hk | now apply Hget].
  - split; [| reflexivity]. intros _.
    apply get_None_iff in E.
    split.
    + intros ->. apply E, keys_spread. left. now left.
    + apply get_None_iff. intros Hin. apply E, keys_spread. now right.
Qed.

Lemma formBody_value (xoxc k : string) (v : Val) (params : Obj) :
  Js.wf params -> Js.get k params = Some v ->
  form_get k (formBody xoxc params) = Some (String_ v).
Proof.
  intros Hwf Hget. unfold formBody.
  rewrite form_get_URLSearchParams, (get_spread_present k v params _ Hwf Hget).
  reflexivity.
Qed.




(** ** Batch user resolution *)

Lemma collect_length_split {A B : Type} (f : A -> option B) (l : list A) :
  List.length (collect f l)
  + List.length (filter (fun x => match f x with Some _ => false | None => true end) l)
  = List.length l.
Proof.
  induction l as [| x l IH]; simpl.
  - reflexivity.
  - destruct (f x); simpl; lia.
Qed.

(** One turn of the loop of [getUsersInfo]: the lookup, the line on the
    console when it raised, then the remaining identifiers. *)
Lemma getUsersInfo_loop_step w this userId rest users h :
  getUsersInfo_loop w this (userId :: rest) users h
  = let r := fst (getUserInfo w this userId h) in
    let evs1 := (snd (getUserInfo w this userId h)
                 ++ if is_ok r then []
                    else [EvConsoleError ("Failed to fetch user " ++ userId)])%list in
    let users1 := match resolved r with
                  | Some u => (users ++ [u])%list
                  | None => users
                  end in
    (fst (getUsersInfo_loop w this rest users1 (h ++ evs1)%list),
     (evs1 ++ snd (getUsersInfo_loop w this rest users1 (h ++ evs1)%list))%list).
Proof.
  simpl. unfold bind at 1. unfold try_catch. unfold bind at 1.
  destruct (getUserInfo w this userId h) as [[response | e] evs1]; simpl.
  - destruct (ok response); [destruct (user response) |];
      unfold ret at 1; simpl; rewrite !app_nil_r;
      now destruct (getUsersInfo_loop w this rest _ _).
  - unfold bind, emit, ret. simpl.
    now destruct (getUsersInfo_loop w this rest _ _).
Qed.

Lemma lookups_getUserInfo w this userId h :
  lookups (snd (getUserInfo w this userId h))
  = [(user_param userId, fst (getUserInfo w this userId h))].
Proof.
  unfold lookups, requests_of, getUserInfo.
  rewrite collect_request by apply above_request_of. reflexivity.
Qed.

Lemma console_errors_getUserInfo w this userId h :
  console_errors (snd (getUserInfo w this userId h)) = [].
Proof.
  unfold console_errors, getUserInfo.
  rewrite collect_request by (intros [] ?; simpl in *; try reflexivity; discriminate).
  reflexivity.
Qed.

(** The loop never raises; it issues one lookup per identifier, in
    order, appends the users that resolved, and writes one line per
    lookup that raised. *)
Lemma getUsersInfo_loop_spec w this userIds :
  forall users h,
  exists users' evs,
    getUsersInfo_loop w this userIds users h = (Ok users', evs)
    /\ map fst (lookups evs) = map user_param userIds
    /\ users' = (users ++ collect resolved (map snd (lookups evs)))%list
    /\ List.length (console_errors evs)
       = List.length (filter lookup_raised (map snd (lookups evs))).
Proof.
  induction userIds as [| userId rest IH]; intros users h.
  - exists users, []. simpl. now rewrite app_nil_r.
  - rewrite getUsersInfo_loop_step. cbv zeta.
    set (r := fst (getUserInfo w this userId h)).
    set (evs1 := (snd (getUserInfo w this userId h) ++ _)%list).
    set (users1 := match resolved r with Some u => _ | None => _ end).
    destruct (IH users1 (h ++ evs1)%list) as (users' & evs2 & Hrun & Hids & Husers & Hlog).
    rewrite Hrun. simpl. exists users', (evs1 ++ evs2)%list.
    assert (Hl1 : lookups evs1 = [(user_param userId, r)]).
    { subst evs1. unfold lookups, requests_of. rewrite collect_app.
      fold (requests_of "users.info" (snd (getUserInfo w this userId h))).
      fold (lookups (snd (getUserInfo w this userId h))).
      rewrite lookups_getUserInfo. fold r. now destruct (is_ok r). }
    assert (Hc1 : console_errors evs1 = if is_ok r then [] else
                    ["Failed to fetch user " ++ userId]).
    { subst evs1. unfold console_errors. rewrite collect_app.
      fold (console_errors (snd (getUserInfo w this userId h))).
      rewrite console_errors_getUserInfo. now destruct (is_ok r). }
    assert (Hla : lookups (evs1 ++ evs2) = ((user_param userId, r) :: lookups evs2)).
    { unfold lookups, requests_of in *. now rewrite collect_app, Hl1. }
    split; [reflexivity |]. rewrite Hla. simpl. split; [| split].
    + now rewrite Hids.
    + rewrite Husers. subst users1. destruct (resolved r); [| reflexivity].
      now rewrite <- app_assoc.
    + unfold console_errors in *. rewrite collect_app, length_app, Hc1, Hlog.
      unfold lookup_raised at 2. destruct (is_ok r); reflexivity.
Qed.

Lemma getUsersInfo_spec w this userIds h :
  exists response evs,
    getUsersInfo w this userIds h = (Ok response, evs)
    /\ users_ok response = true
    /\ map fst (lookups evs) = map user_param userIds
    /\ users response = collect resolved (map snd (lookups evs))
    /\ List.length (console_errors evs)
       = List.length (filter lookup_raised (map snd (lookups evs))).
Proof.
  destruct (getUsersInfo_loop_spec w this userIds [] h)
    as (users' & evs & Hrun & Hids & Husers & Hlog).
  unfold getUsersInfo, bind. rewrite Hrun. simpl.
  eexists _, _. split; [reflexivity |]. simpl. rewrite app_nil_r. auto.
Qed.

(** C4. Batch user resolution over N identifiers never raises; the
    lookups are issued one per identifier; the users returned are those
    of the lookups that resolved, so with K failed lookups exactly N-K
    entries come back.  A lookup fails when it raises or when its
    envelope is not ok or carries no user (the test of the loop); when
    every envelope that comes back is ok and carries a user, as its type
    says, the failed lookups are exactly those that raised, each of
    which left one line on the console. *)
Theorem getUsersInfo_partial_success (w : World) (this : SlackClient)
        (userIds : list string) (h : Trace) :
  exists response evs,
    getUsersInfo w this userIds h = (Ok response, evs)
    /\ map fst (lookups evs) = map user_param userIds
    /\ users response = collect resolved (map snd (lookups evs))
    /\ List.length (filter lookup_failed (map snd (lookups evs))) <= List.length userIds
    /\ List.length (users response)
       = List.length userIds
         - List.length (filter lookup_failed (map snd (lookups evs)))
    /\ List.length (console_errors evs)
       = List.length (filter lookup_raised (map snd (lookups evs)))
    /\ ((forall resp, In (Ok resp) (map snd (lookups evs)) ->
                      ok resp = true /\ user resp <> None) ->
        filter lookup_failed (map snd (lookups evs))
        = filter lookup_raised (map snd (lookups evs))).
Proof.
  destruct (getUsersInfo_spec w this userIds h)
    as (response & evs & Hrun & _ & Hids & Husers & Hlog).
  exists response, evs. split; [exact Hrun |]. split; [exact Hids |].
  split; [exact Husers |].
  assert (Hn : List.length (map snd (lookups evs)) = List.length userIds).
  { rewrite length_map, <- (length_map fst), Hids. apply length_map. }
  pose proof (collect_length_split resolved (map snd (lookups evs))) as Hsplit.
  fold lookup_failed in Hsplit.
  change (fun x => lookup_failed x) with lookup_failed in Hsplit.
  rewrite <- Husers in Hsplit.
  split; [lia |]. split; [lia |]. split; [exact Hlog |].
  intros Htyped. apply filter_ext_in. intros [resp | e] Hin.
  - destruct (Htyped resp Hin) as [Hok Huser].
    unfold lookup_failed, lookup_raised, resolved. simpl. rewrite Hok.
    destruct (user resp); [reflexivity | contradiction].
  - reflexivity.
Qed.

(** C9. Batch user resolution always returns an envelope whose ok flag
    is true; when every lookup fails its list of users is empty; and the
    users listed are those of the resolved lookups in the order of the
    identifiers: lookup i asks for identifier i, and the list is the
    resolved outcomes read from first to last. *)
Theorem getUsersInfo_ok_and_ordered (w : World) (this : SlackClient)
        (userIds : list string) (h : Trace) :
  exists response evs outcomes,
    getUsersInfo w this userIds h = (Ok response, evs)
    /\ users_ok response = true
    /\ lookups evs = combine (map user_param userIds) outcomes
    /\ List.length outcomes = List.length userIds
    /\ users response = collect resolved outcomes
    /\ (forallb lookup_failed outcomes = true -> users response = []).
Proof.
  destruct (getUsersInfo_spec w this userIds h)
    as (response & evs & Hrun & Hok & Hids & Husers & _).
  exists response, evs, (map snd (lookups evs)).
  split; [exact Hrun |]. split; [exact Hok |].
  split; [| split; [| split; [exact Husers |]]].
  - rewrite <- Hids. clear. induction (lookups evs) as [| [p r] l IH]; simpl.
    + reflexivity.
    + now rewrite <- IH.
  - rewrite length_map, <- (length_map fst), Hids. apply length_map.
  - rewrite Husers. clear. induction (map snd (lookups evs)) as [| r l IH]; simpl.
    + reflexivity.
    + unfold lookup_failed at 1. destruct (resolved r); simpl; [discriminate | exact IH].
Qed.

(** ** The upload orchestrator *)

Lemma above_upload_failure : above_transport upload_failure.
Proof. above. Qed.

Lemma bind_Ok {A B : Type} (m : M A) (f : A -> M B) (h : Trace) (a : A) :
  fst (m h) = Ok a ->
  bind m f h = (fst (f a (h ++ snd (m h))%list),
                (snd (m h) ++ snd (f a (h ++ snd (m h))%list))%list).
Proof.
  unfold bind. destruct (m h) as [r evs]. simpl. intros ->.
  now destruct (f a (h ++ evs)%list).
Qed.

Lemma bind_Throw {A B : Type} (m : M A) (f : A -> M B) (h : Trace) (e : Thrown) :
  fst (m h) = Throw e -> bind m f h = (Throw e, snd (m h)).
Proof.
  unfold bind. destruct (m h) as [r evs]. simpl. now intros ->.
Qed.

(** What [uploadToUrl] adds to the history: its [fetch], then the
    record of the invocation with its outcome. *)
Lemma uploadToUrl_run w uploadUrl fileContent filename h :
  exists tevs,
    snd (uploadToUrl w uploadUrl fileContent filename h)
    = (tevs ++ [EvUploadToUrl uploadUrl filename
                  (fst (uploadToUrl w uploadUrl fileContent filename h))])%list
    /\ forallb transport tevs = true.
Proof.
  unfold uploadToUrl, recorded, bind, ask, throw, ret.
  destruct (fetch w h _ _) as [response | e]; simpl.
  - destruct (resp_ok response); simpl; eexists [_]; split; reflexivity.
  - eexists [_]; split; reflexivity.
Qed.

Lemma collect_uploadToUrl {B : Type} (f : Event -> option B)
      w uploadUrl fileContent filename h :
  above_transport f ->
  collect f (snd (uploadToUrl w uploadUrl fileContent filename h))
  = match f (EvUploadToUrl uploadUrl filename
               (fst (uploadToUrl w uploadUrl fileContent filename h))) with
    | Some y => [y]
    | None => []
    end.
Proof.
  intros Hf.
  destruct (uploadToUrl_run w uploadUrl fileContent filename h) as (tevs & -> & Ht).
  rewrite collect_app, (collect_transport f tevs Hf Ht). reflexivity.
Qed.

Lemma onProgress_run {B : Type} (f : Event -> option B) options step h :
  (forall s, f (EvProgress s) = None) ->
  fst (onProgress options step h) = Ok tt
  /\ collect f (snd (onProgress options step h)) = [].
Proof.
  intros Hf. unfold onProgress. destruct (u_onProgress options); simpl.
  - now rewrite Hf.
  - auto.
Qed.

Ltac above_any :=
  first [ apply above_request_of | apply above_failure_of | apply above_slot_granted
        | apply above_transfer_done | apply above_upload_failure
        | apply above_any_request ].

(** Read the events of one turn of the upload loop. *)
Ltac read_turn :=
  cbn [fst snd];
  unfold finalize_calls, failures, slots_granted, transfers_done, requests_of in *;
  unfold ask; cbn [snd];
  rewrite ?collect_app;
  unfold getUploadUrl in *;
  rewrite ?collect_request by above_any;
  rewrite ?collect_uploadToUrl by above_any.

(** The reading of a run of the upload loop: it never finalizes; when
    it completes, nothing failed, every remaining file got its slot and
    its transfer, and one entry per file was appended; when it raises,
    that failure is the only one and a transfer is missing. *)
Lemma uploadFiles_loop_spec w this options total rest :
  forall i fileEntries h,
    finalize_calls (snd (uploadFiles_loop w this rest i total options fileEntries h)) = []
    /\ match fst (uploadFiles_loop w this rest i total options fileEntries h) with
       | Ok entries =>
           failures (snd (uploadFiles_loop w this rest i total options fileEntries h)) = []
           /\ entries
              = (fileEntries
                 ++ entries_from options i
                      (map snd
                         (slots_granted
                            (snd (uploadFiles_loop w this rest i total options
                                                   fileEntries h)))))%list
           /\ map (fun s => Js.get "filename" (fst s))
                  (slots_granted
                     (snd (uploadFiles_loop w this rest i total options fileEntries h)))
              = map (fun filePath => Some (VStr (upload_filename filePath))) rest
           /\ List.length
                (transfers_done
                   (snd (uploadFiles_loop w this rest i total options fileEntries h)))
              = List.length rest
       | Throw e =>
           failures (snd (uploadFiles_loop w this rest i total options fileEntries h)) = [e]
           /\ List.length
                (transfers_done
                   (snd (uploadFiles_loop w this rest i total options fileEntries h)))
              < List.length rest
       end.
Proof.
  induction rest as [| filePath rest IH]; intros i fileEntries h.
  - simpl. rewrite app_nil_r. auto.
  - cbn [uploadFiles_loop].
    destruct (arrayBuffer w h filePath) as [fileContent | e] eqn:Eread.
    + rewrite (@bind_Ok _ _ _ _ h fileContent) by (unfold ask; simpl; now rewrite Eread).
      set (h1 := (h ++ _)%list).
      set (step := ("Uploading file " ++ _)%string).
      destruct (onProgress_run any_request options step h1 (fun _ => eq_refl)) as [Hp _].
      rewrite (@bind_Ok _ _ _ _ h1 tt) by exact Hp.
      set (h2 := (h1 ++ _)%list).
      set (len := Int (Z.of_nat (List.length fileContent))).
      destruct (fst (getUploadUrl w this (upload_filename filePath) len h2))
        as [slot | e] eqn:Eslot.
      * rewrite (@bind_Ok _ _ _ _ h2 slot) by exact Eslot.
        set (h3 := (h2 ++ _)%list).
        destruct (fst (uploadToUrl w (upload_url slot) fileContent
                                   (upload_filename filePath) h3))
          as [[] | e] eqn:Eup.
        -- rewrite (@bind_Ok _ _ _ _ h3 tt) by exact Eup.
           set (h4 := (h3 ++ _)%list).
           specialize (IH (S i) (fileEntries ++ [make_entry options i (file_id slot)])%list h4).
           destruct IH as [IHfin IHres].
           read_turn. rewrite Eread, Eslot, Eup.
           rewrite !(proj2 (onProgress_run _ options step h1 (fun _ => eq_refl))).
           cbn. rewrite IHfin. split; [reflexivity |].
           destruct (fst (uploadFiles_loop w this rest (S i) total options _ h4))
             as [entries | e].
           ++ destruct IHres as (Hfail & Hentries & Hslots & Htrans).
              rewrite Hfail, Hentries, Hslots, Htrans, <- app_assoc. auto.
           ++ destruct IHres as (Hfail & Htrans). rewrite Hfail.
              split; [reflexivity | lia].
        -- rewrite (@bind_Throw _ _ _ _ h3 e) by exact Eup.
           read_turn. rewrite Eread, Eslot, Eup.
           rewrite !(proj2 (onProgress_run _ options step h1 (fun _ => eq_refl))).
           cbn. split; [reflexivity | split; [reflexivity | lia]].
      * rewrite (@bind_Throw _ _ _ _ h2 e) by exact Eslot.
        read_turn. rewrite Eread, Eslot.
        rewrite !(proj2 (onProgress_run _ options step h1 (fun _ => eq_refl))).
        cbn. split; [reflexivity | split; [reflexivity | lia]].
    + rewrite (@bind_Throw _ _ _ _ h e) by (unfold ask; simpl; now rewrite Eread).
      unfold ask. cbn. rewrite Eread. cbn.
      split; [reflexivity | split; [reflexivity | lia]].
Qed.

Lemma upload_failure_is_failure (ev : Event) (e : Thrown) :
  upload_failure ev = Some e -> failure_of ev = Some e.
Proof.
  destruct ev as [| | | | m p [resp | e'] | u f [[] | e'] | | | | |]; simpl; try discriminate.
  - destruct (String.eqb m "files.getUploadURLExternal"); [auto | discriminate].
  - auto.
Qed.

Lemma upload_failures_none (evs : list Event) :
  failures evs = [] -> upload_failures evs = [].
Proof.
  unfold failures, upload_failures. induction evs as [| ev evs IH]; simpl.
  - reflexivity.
  - destruct (upload_failure ev) as [e |] eqn:E.
    + now rewrite (upload_failure_is_failure ev _ E).
    + destruct (failure_of ev); [discriminate | exact IH].
Qed.

Lemma upload_failures_single (evs : list Event) (e : Thrown) :
  failures evs = [e] -> upload_failures evs = [] \/ upload_failures evs = [e].
Proof.
  unfold failures, upload_failures. induction evs as [| ev evs IH]; simpl.
  - discriminate.
  - destruct (upload_failure ev) as [e' |] eqn:E.
    + rewrite (upload_failure_is_failure ev _ E). intros [= -> Hrest].
      right. f_equal. now apply upload_failures_none.
    + destruct (failure_of ev) as [e' |].
      * intros [= -> Hrest]. left. now apply upload_failures_none.
      * exact IH.
Qed.

Lemma length_entries_from options i slots :
  List.length (entries_from options i slots) = List.length slots.
Proof.
  revert i. induction slots as [| slot slots IH]; intros i; simpl; [| rewrite IH]; reflexivity.
Qed.

Lemma nth_error_entries_from options slots :
  forall i j,
    nth_error (entries_from options i slots) j
    = option_map (fun slot => make_entry options (i + j) (file_id slot))
                 (nth_error slots j).
Proof.
  induction slots as [| slot slots IH]; intros i [| j]; simpl; try reflexivity.
  - now rewrite Nat.add_0_r.
  - rewrite IH. now rewrite Nat.add_succ_r.
Qed.

Lemma title_make_entry options i file_id t :
  title (make_entry options i file_id) = Some t
  <-> exists titles, u_titles options = Some titles
                     /\ nth_error titles i = Some t /\ t <> "".
Proof.
  unfold make_entry, title_at. simpl.
  destruct (u_titles options) as [titles |]; simpl.
  - destruct (nth_error titles i) as [t' |] eqn:E; simpl.
    + destruct t' as [| c t']; simpl.
      * split; [discriminate |]. intros (titles' & [= <-] & Hn & Ht).
        rewrite E in Hn. congruence.
      * split.
        -- intros [= <-]. exists titles. repeat split; [exact E | discriminate].
        -- intros (titles' & [= <-] & Hn & _). congruence.
    + split; [discriminate |]. intros (titles' & [= <-] & Hn & _). congruence.
  - split; [discriminate |]. intros (titles' & Hn & _). discriminate.
Qed.

(** A run of [uploadFiles] either raises before the finalize call, with
    a transfer missing, or gives every file its slot and its transfer and
    then finalizes once, with one entry per slot. *)
Lemma uploadFiles_spec w this filePaths options h :
  (exists e,
      fst (uploadFiles w this filePaths options h) = Throw e
      /\ failures (snd (uploadFiles w this filePaths options h)) = [e]
      /\ finalize_calls (snd (uploadFiles w this filePaths options h)) = []
      /\ List.length (transfers_done (snd (uploadFiles w this filePaths options h)))
         < List.length filePaths)
  \/ (upload_failures (snd (uploadFiles w this filePaths options h)) = []
      /\ List.length (transfers_done (snd (uploadFiles w this filePaths options h)))
         = List.length filePaths
      /\ map (fun s => Js.get "filename" (fst s))
             (slots_granted (snd (uploadFiles w this filePaths options h)))
         = map (fun filePath => Some (VStr (upload_filename filePath))) filePaths
      /\ finalize_calls (snd (uploadFiles w this filePaths options h))
         = [(completeUpload_params
               (entries_from options 0
                  (map snd (slots_granted (snd (uploadFiles w this filePaths options h)))))
               (complete_options options),
             fst (uploadFiles w this filePaths options h))]).
Proof.
  unfold uploadFiles.
  pose proof (uploadFiles_loop_spec w this options (List.length filePaths) filePaths 0 [] h)
    as [Hfin Hres].
  destruct (fst (uploadFiles_loop w this filePaths 0 (List.length filePaths) options [] h))
    as [entries | e] eqn:Eloop.
  - right. destruct Hres as (Hfail & Hentries & Hslots & Htrans).
    rewrite (@bind_Ok _ _ _ _ h entries) by exact Eloop.
    set (h1 := (h ++ _)%list).
    destruct (onProgress_run any_request options "Finalizing upload..." h1
                             (fun _ => eq_refl)) as [Hp _].
    rewrite (@bind_Ok _ _ _ _ h1 tt) by exact Hp.
    set (h2 := (h1 ++ _)%list).
    apply upload_failures_none in Hfail.
    cbn [fst snd].
    unfold upload_failures, finalize_calls, slots_granted, transfers_done, requests_of in *.
    rewrite !collect_app.
    unfold completeUpload.
    rewrite !collect_request by above_any.
    rewrite !(proj2 (onProgress_run _ options "Finalizing upload..." h1 (fun _ => eq_refl))).
    fold (complete_options options).
    set (params := completeUpload_params entries (complete_options options)).
    set (r := fst (request w this "files.completeUploadExternal" params h2)).
    replace (upload_failure (EvRequest "files.completeUploadExternal" params r))
      with (@None Thrown) by now destruct r.
    replace (slot_granted (EvRequest "files.completeUploadExternal" params r))
      with (@None (Obj * SlackApiResponse)) by now destruct r.
    change (transfer_done (EvRequest "files.completeUploadExternal" params r))
      with (@None (string * string)).
    change (request_of "files.completeUploadExternal"
                       (EvRequest "files.completeUploadExternal" params r))
      with (Some (params, r)).
    rewrite !app_nil_r, Hfail, Hfin, Htrans, Hslots.
    cbn in Hentries. subst params entries. auto.
  - left. exists e. destruct Hres as (Hfail & Htrans).
    rewrite (@bind_Throw _ _ _ _ h e) by exact Eloop. cbn [fst snd]. auto.
Qed.

(** C2. When a slot request or a byte transfer fails for one of the
    files handed to [uploadFiles], the finalize call is never issued,
    the operation raises, and the failure it raises is the only failure
    of the run: that of the step that failed. *)
Theorem uploadFiles_fail_fast (w : World) (this : SlackClient)
        (filePaths : list string) (options : UploadOptions) (h : Trace) :
  upload_failures (snd (uploadFiles w this filePaths options h)) <> [] ->
  finalize_calls (snd (uploadFiles w this filePaths options h)) = []
  /\ exists e,
       fst (uploadFiles w this filePaths options h) = Throw e
       /\ upload_failures (snd (uploadFiles w this filePaths options h)) = [e]
       /\ failures (snd (uploadFiles w this filePaths options h)) = [e].
Proof.
  intros Hfailed.
  destruct (uploadFiles_spec w this filePaths options h)
    as [(e & Hres & Hfail & Hfin & _) | (Hnone & _)].
  - split; [exact Hfin |]. exists e. split; [exact Hres |]. split; [| exact Hfail].
    destruct (upload_failures_single _ _ Hfail) as [Hnone | Hone];
      [contradiction | exact Hone].
  - contradiction.
Qed.

(** The theorem in a world whose upload destination answers HTTP 500:
    the first of two files fails at the transfer. *)
Lemma uploadFiles_fail_fast_witness :
  finalize_calls
    (snd (uploadFiles (refusing_transfers slot_response_F1) (new_SlackClient browser_config)
                      ["/tmp/a.txt"; "b.png"] no_upload_options [])) = []
  /\ exists e,
       fst (uploadFiles (refusing_transfers slot_response_F1)
                        (new_SlackClient browser_config)
                        ["/tmp/a.txt"; "b.png"] no_upload_options []) = Throw e
       /\ upload_failures
            (snd (uploadFiles (refusing_transfers slot_response_F1)
                              (new_SlackClient browser_config)
                              ["/tmp/a.txt"; "b.png"] no_upload_options [])) = [e]
       /\ failures
            (snd (uploadFiles (refusing_transfers slot_response_F1)
                              (new_SlackClient browser_config)
                              ["/tmp/a.txt"; "b.png"] no_upload_options [])) = [e].
Proof.
  apply (uploadFiles_fail_fast (refusing_transfers slot_response_F1)
                               (new_SlackClient browser_config)
                               ["/tmp/a.txt"; "b.png"] no_upload_options []).
  vm_compute. discriminate.
Defined.

(** C10. When every one of the M files handed to [uploadFiles] gets its
    slot and its transfer, the finalize call is issued exactly once, for
    M entries in the order of the paths: slot request i was made for the
    name of file i, entry i carries the file_id that request returned,
    and it carries a title exactly when [options.titles] holds a
    non-empty title at index i, which is then the title carried. *)
Theorem uploadFiles_finalizes_once (w : World) (this : SlackClient)
        (filePaths : list string) (options : UploadOptions) (h : Trace) :
  List.length (transfers_done (snd (uploadFiles w this filePaths options h)))
  = List.length filePaths ->
  exists entries slots,
    slots = slots_granted (snd (uploadFiles w this filePaths options h))
    /\ finalize_calls (snd (uploadFiles w this filePaths options h))
       = [(completeUpload_params entries (complete_options options),
           fst (uploadFiles w this filePaths options h))]
    /\ List.length entries = List.length filePaths
    /\ List.length slots = List.length filePaths
    /\ (forall i filePath,
           nth_error filePaths i = Some filePath ->
           exists slot entry,
             nth_error slots i = Some slot
             /\ Js.get "filename" (fst slot) = Some (VStr (upload_filename filePath))
             /\ nth_error entries i = Some entry
             /\ id entry = file_id (snd slot)
             /\ forall t,
                  title entry = Some t
                  <-> exists titles, u_titles options = Some titles
                                     /\ nth_error titles i = Some t /\ t <> "").
Proof.
  intros Hall.
  destruct (uploadFiles_spec w this filePaths options h)
    as [(e & _ & _ & _ & Hlt) | (_ & _ & Hslots & Hfin)]; [lia |].
  set (slots := slots_granted (snd (uploadFiles w this filePaths options h))) in *.
  assert (Hlen : List.length slots = List.length filePaths).
  { rewrite <- (length_map (fun s => Js.get "filename" (fst s))), Hslots. apply length_map. }
  exists (entries_from options 0 (map snd slots)), slots.
  split; [reflexivity |]. split; [exact Hfin |].
  split; [now rewrite length_entries_from, length_map |]. split; [exact Hlen |].
  intros i filePath Hpath.
  destruct (nth_error slots i) as [slot |] eqn:Eslot.
  - exists slot, (make_entry options i (file_id (snd slot))).
    split; [reflexivity |]. split; [| split; [| split]].
    + apply (map_nth_error (fun s => Js.get "filename" (fst s))) in Eslot.
      rewrite Hslots in Eslot.
      apply (map_nth_error (fun p => Some (VStr (upload_filename p)))) in Hpath.
      congruence.
    + rewrite nth_error_entries_from, nth_error_map, Eslot. reflexivity.
    + reflexivity.
    + intros t. apply title_make_entry.
  - apply nth_error_None in Eslot.
    assert (i < List.length filePaths) by (apply nth_error_Some; congruence). lia.
Qed.

(** The theorem in a world where every step succeeds, for two files. *)
Lemma uploadFiles_finalizes_once_witness :
  exists entries slots,
    slots = slots_granted
              (snd (uploadFiles (answering slot_response_F1) (new_SlackClient standard_config)
                                ["/tmp/a.txt"; "b.png"] no_upload_options []))
    /\ finalize_calls
         (snd (uploadFiles (answering slot_response_F1) (new_SlackClient standard_config)
                           ["/tmp/a.txt"; "b.png"] no_upload_options []))
       = [(completeUpload_params entries (complete_options no_upload_options),
           fst (uploadFiles (answering slot_response_F1) (new_SlackClient standard_config)
                            ["/tmp/a.txt"; "b.png"] no_upload_options []))]
    /\ List.length entries = 2
    /\ List.length slots = 2
    /\ (forall i filePath,
           nth_error ["/tmp/a.txt"; "b.png"] i = Some filePath ->
           exists slot entry,
             nth_error slots i = Some slot
             /\ Js.get "filename" (fst slot) = Some (VStr (upload_filename filePath))
             /\ nth_error entries i = Some entry
             /\ id entry = file_id (snd slot)
             /\ forall t,
                  title entry = Some t
                  <-> exists titles, u_titles no_upload_options = Some titles
                                     /\ nth_error titles i = Some t /\ t <> "").
Proof.
  apply (uploadFiles_finalizes_once (answering slot_response_F1)
                                    (new_SlackClient standard_config)
                                    ["/tmp/a.txt"; "b.png"] no_upload_options []).
  vm_compute. reflexivity.
Defined.

(** ** Marking a conversation as read *)

Lemma all_requests_request w this method params h :
  all_requests (snd (request w this method params h))
  = [(method, params, fst (request w this method params h))].
Proof.
  unfold all_requests. rewrite collect_request by apply above_any_request. reflexivity.
Qed.

Lemma exits_request w this method params h :
  exits (snd (request w this method params h)) = [].
Proof.
  unfold exits. rewrite collect_request by above. reflexivity.
Qed.

Lemma mark_calls_request w this method params h :
  String.eqb method "conversations.mark" = false ->
  mark_calls (snd (request w this method params h)) = [].
Proof.
  intros Hm. unfold mark_calls, requests_of.
  rewrite collect_request by apply above_request_of. simpl. now rewrite Hm.
Qed.

(** Whatever client runs it, a request that fails raises an [Error]. *)
Lemma request_raises_Error w this method params h e :
  fst (request w this method params h) = Throw e -> exists m, e = ErrorObj m.
Proof.
  unfold request, recorded.
  destruct (auth_type (config this)) eqn:Ha.
  - unfold standardRequest. destruct (webClient this) as [wc |].
    + unfold try_catch, ask, throw.
      destruct (apiCall w h (wc_token wc) method params) as [resp | err]; cbn.
      * discriminate.
      * intros [= <-]. eauto.
    + cbn. intros [= <-]. eauto.
  - destruct (browserRequest w this method params h) as [r evs] eqn:E. cbn.
    intros ->.
    destruct (config this) as [wid wname token tt | wid wname url xoxd xoxc] eqn:Hc.
    + unfold browserRequest in E. rewrite Hc in E. injection E as <- _. eauto.
    + destruct (browserRequest_failure_wrapped w this wid wname url xoxd xoxc
                  method params h e Hc) as [err ->]; [now rewrite E |].
      destruct (browserRequest_catch_prefixed err) as (m & -> & _). eauto.
Qed.

(** C8. Marking a conversation as read without a timestamp is a
    composite of two calls.  Unless no client could be obtained, the
    action completes and its first request is the history of the
    conversation with limit 1; when that answer holds a message, the one
    further request is the mark call with the timestamp of the first
    message; when it holds no message, nothing else is requested: no
    mark call is issued and the action ends without an exit; when the
    history request fails, no mark call is issued and the action exits
    with status 1.  When no client could be obtained nothing is
    requested, and the action exits with status 1 if the message of what
    was raised can be read; if that was [null] or [undefined] the catch
    clause raises in its turn, and so does the action, without an
    exit. *)
Theorem mark_read_fetches_latest_first (w : World) (channelId : string)
        (timestamp workspace : option string) (h : Trace) :
  truthy_opt_str timestamp = false ->
  match all_requests (snd (mark_read_action w channelId timestamp workspace h)) with
  | [] =>
      mark_calls (snd (mark_read_action w channelId timestamp workspace h)) = []
      /\ exists e,
           failures (snd (mark_read_action w channelId timestamp workspace h)) = [e]
           /\ match message_property e with
              | Ok _ =>
                  fst (mark_read_action w channelId timestamp workspace h) = Ok tt
                  /\ exits (snd (mark_read_action w channelId timestamp workspace h))
                     = [1%Z]
              | Throw raised =>
                  fst (mark_read_action w channelId timestamp workspace h) = Throw raised
                  /\ exits (snd (mark_read_action w channelId timestamp workspace h)) = []
              end
  | (method, params, r1) :: rest =>
      fst (mark_read_action w channelId timestamp workspace h) = Ok tt
      /\ method = "conversations.history"
      /\ params = [("channel", VStr channelId); ("limit", VNum (Int 1))]
      /\ match r1 with
         | Ok history =>
             match messages history with
             | Some (m :: _) =>
                 exists r2,
                   rest = [("conversations.mark",
                            [("channel", VStr channelId); ("ts", VStr (ts m))], r2)]
             | Some [] | None =>
                 rest = []
                 /\ mark_calls (snd (mark_read_action w channelId timestamp workspace h))
                    = []
                 /\ exits (snd (mark_read_action w channelId timestamp workspace h)) = []
             end
         | Throw _ =>
             rest = []
             /\ exits (snd (mark_read_action w channelId timestamp workspace h)) = [1%Z]
         end
  end.
Proof.
  intros Hts. unfold mark_read_action. rewrite Hts. cbn [negb].
  unfold bind, try_catch, emit, ask, ret, lift.
  destruct (getAuthenticatedClient w _ workspace) as [client | e].
  - destruct (getConversationHistory w client channelId _ _) as [[history | e] evs1] eqn:E;
      (match type of E with
       | getConversationHistory _ _ _ ?o ?hh = _ =>
           pose proof (all_requests_request w client "conversations.history"
                         (getConversationHistory_params channelId o) hh) as Hreq;
           pose proof (exits_request w client "conversations.history"
                         (getConversationHistory_params channelId o) hh) as Hex;
           pose proof (request_raises_Error w client "conversations.history"
                         (getConversationHistory_params channelId o) hh) as Herr
       end);
      unfold getConversationHistory in E; rewrite E in Hreq, Hex, Herr;
      pose proof (mark_calls_request w client "conversations.history"
                    (getConversationHistory_params channelId
                       {| h_cursor := None; h_latest := None; h_oldest := None;
                          h_inclusive := None; h_limit := Some (Int 1) |})
                    (((h ++ [EvSpinner sp_start "Marking conversation as read..."])
                        ++ [EvGetClient workspace (Ok client)])
                       ++ [EvSpinner sp_text "Fetching latest message..."])%list
                    eq_refl) as Hmark;
      rewrite E in Hmark;
      cbn [fst snd] in Hreq, Hex, Hmark, Herr;
      unfold all_requests, exits, mark_calls, requests_of in *.
    + destruct (messages history) as [[| m ms] |] eqn:Em.
      * cbn. rewrite !collect_app, Hreq, Hex, Hmark. cbn. rewrite Em. auto 10.
      * destruct (markConversationRead w client channelId (ts m) _)
          as [r2 evs2] eqn:E2.
        match type of E2 with
        | markConversationRead _ _ _ _ ?hh = _ =>
            pose proof (all_requests_request w client "conversations.mark"
                          (markConversationRead_params channelId (ts m)) hh) as Hreq2;
            pose proof (request_raises_Error w client "conversations.mark"
                          (markConversationRead_params channelId (ts m)) hh) as Herr2
        end.
        unfold markConversationRead in E2. rewrite E2 in Hreq2, Herr2.
        cbn [fst snd] in Hreq2, Herr2. unfold all_requests in Hreq2.
        destruct r2 as [resp | e];
          [| destruct (Herr2 e eq_refl) as [msg ->]]; cbn;
          rewrite !collect_app, Hreq, Hreq2; cbn; rewrite Em; eauto.
      * cbn. rewrite !collect_app, Hreq, Hex, Hmark. cbn. rewrite Em. auto 10.
    + destruct (Herr e eq_refl) as [msg ->].
      cbn. rewrite !collect_app, Hreq, Hex. cbn. auto.
  - destruct e as [msg | []]; cbn; (split; [reflexivity |]);
      eexists; (split; [reflexivity |]); cbn; auto.
Qed.

(** The theorem for a conversation whose history holds no message. *)
Lemma mark_read_fetches_latest_first_witness :
  truthy_opt_str None = false
  /\ fst (mark_read_action (answering plain_response) "C1" None None []) = Ok tt
  /\ mark_calls (snd (mark_read_action (answering plain_response) "C1" None None [])) = [].
Proof.
  split; [reflexivity |].
  split; [| reflexivity].
  exact (proj1 (mark_read_fetches_latest_first
                  (answering plain_response) "C1" None None [] eq_refl)).
Defined.

(** ** Parameter shaping *)

Lemma wf_set (k : string) (v : Val) (o : Obj) : Js.wf o -> Js.wf (Js.set k v o).
Proof.
  unfold Js.wf. induction o as [| [k' v'] o IH]; simpl; intros Hwf.
  - repeat constructor. intros [].
  - apply NoDup_cons_iff in Hwf as [Hnotin Hwf].
    destruct (String.eqb_spec k k') as [-> | Hne]; simpl.
    + now constructor.
    + constructor; [| now apply IH].
      intros Hin. apply keys_set in Hin as [-> | Hin]; [now apply Hne | now apply Hnotin].
Qed.

Lemma wf_assign_if_str k value o : Js.wf o -> Js.wf (assign_if_str k value o).
Proof.
  intros Hwf. unfold assign_if_str.
  destruct value as [s |]; [destruct (truthy_str s) |]; auto using wf_set.
Qed.

Lemma wf_assign_if_num k value o : Js.wf o -> Js.wf (assign_if_num k value o).
Proof.
  intros Hwf. unfold assign_if_num.
  destruct value as [n |]; [destruct (truthy_num n) |]; auto using wf_set.
Qed.

Lemma wf_assign_if_num_String k value o :
  Js.wf o -> Js.wf (assign_if_num_String k value o).
Proof.
  intros Hwf. unfold assign_if_num_String.
  destruct value as [n |]; [destruct (truthy_num n) |]; auto using wf_set.
Qed.

Lemma wf_assign_if_defined_bool k value o :
  Js.wf o -> Js.wf (assign_if_defined_bool k value o).
Proof.
  intros Hwf. unfold assign_if_defined_bool. destruct value; auto using wf_set.
Qed.

Lemma get_assign_if_str_other k k' value o :
  k <> k' -> Js.get k' (assign_if_str k value o) = Js.get k' o.
Proof.
  intros Hne. unfold assign_if_str.
  destruct value as [s |]; [destruct (truthy_str s) |]; auto using get_set_other.
Qed.

Lemma get_assign_if_num_other k k' value o :
  k <> k' -> Js.get k' (assign_if_num k value o) = Js.get k' o.
Proof.
  intros Hne. unfold assign_if_num.
  destruct value as [n |]; [destruct (truthy_num n) |]; auto using get_set_other.
Qed.

Lemma get_assign_if_num_String_other k k' value o :
  k <> k' -> Js.get k' (assign_if_num_String k value o) = Js.get k' o.
Proof.
  intros Hne. unfold assign_if_num_String.
  destruct value as [n |]; [destruct (truthy_num n) |]; auto using get_set_other.
Qed.

Lemma get_assign_if_defined_bool_other k k' value o :
  k <> k' -> Js.get k' (assign_if_defined_bool k value o) = Js.get k' o.
Proof.
  intros Hne. unfold assign_if_defined_bool. destruct value; auto using get_set_other.
Qed.

(** Look a key up in a mapping built by conditional assignments to
    other keys. *)
Ltac skip_assignments :=
  repeat first
    [ rewrite get_assign_if_str_other by discriminate
    | rewrite get_assign_if_num_other by discriminate
    | rewrite get_assign_if_num_String_other by discriminate
    | rewrite get_assign_if_defined_bool_other by discriminate ].

Ltac wf_params :=
  repeat first [ apply wf_assign_if_str | apply wf_assign_if_num
               | apply wf_assign_if_num_String | apply wf_assign_if_defined_bool ];
  unfold Js.wf; simpl; repeat constructor; simpl; intuition discriminate.

Lemma wf_getConversationHistory_params channel options :
  Js.wf (getConversationHistory_params channel options).
Proof. unfold getConversationHistory_params. wf_params. Qed.

Lemma wf_getConversationReplies_params channel ts options :
  Js.wf (getConversationReplies_params channel ts options).
Proof. unfold getConversationReplies_params. wf_params. Qed.

Lemma wf_searchAll_params query options : Js.wf (searchAll_params query options).
Proof. unfold searchAll_params. wf_params. Qed.

Lemma wf_completeUpload_params files options :
  Js.wf (completeUpload_params files options).
Proof. unfold completeUpload_params. wf_params. Qed.

(** The two transports under [request]. *)
Lemma api_calls_request_standard w wid wname token tt method params h :
  api_calls (snd (request w (new_SlackClient (StandardAuthConfig wid wname token tt))
                          method params h))
  = [(method, params)].
Proof.
  unfold request, recorded, standardRequest, try_catch, ask, throw. simpl.
  destruct (apiCall w h token method params); reflexivity.
Qed.

Lemma form_bodies_request_browser w this wid wname url xoxd xoxc method params h :
  config this = BrowserAuthConfig wid wname url xoxd xoxc ->
  form_bodies (snd (request w this method params h)) = [formBody xoxc params].
Proof.
  intros Hc.
  pose proof (browserRequest_form_bodies w this wid wname url xoxd xoxc method params h Hc)
    as Hb.
  unfold request, recorded. rewrite Hc. simpl.
  destruct (browserRequest w this method params h) as [r evs]. simpl in *.
  unfold form_bodies in *. rewrite collect_app, Hb. reflexivity.
Qed.

(** With an empty cursor the history and replies methods build the
    mapping they build without a cursor, and it has no cursor key. *)
Lemma history_empty_cursor_omitted channel ts latest oldest inclusive limit :
  let with_cursor c := {| h_cursor := c; h_latest := latest; h_oldest := oldest;
                          h_inclusive := inclusive; h_limit := limit |} in
  getConversationHistory_params channel (with_cursor (Some ""))
  = getConversationHistory_params channel (with_cursor None)
  /\ Js.get "cursor" (getConversationHistory_params channel (with_cursor None)) = None
  /\ getConversationReplies_params channel ts (with_cursor (Some ""))
     = getConversationReplies_params channel ts (with_cursor None)
  /\ Js.get "cursor" (getConversationReplies_params channel ts (with_cursor None)) = None.
Proof.
  cbv zeta. unfold getConversationHistory_params, getConversationReplies_params.
  cbn [h_cursor h_latest h_oldest h_inclusive h_limit].
  repeat split; try reflexivity; skip_assignments; reflexivity.
Qed.

(** C5 fails for [listConversations]: it hands its options object to
    [request] as it is, so an empty cursor travels as the key cursor
    with an empty value, in the mapping and in the form body, while a
    call without cursor sends no such key. *)
Theorem listConversations_forwards_empty_cursor (w : World) (h : Trace) :
  all_requests (snd (listConversations w (new_SlackClient browser_config)
                                       [("cursor", VStr "")] h))
  = [("conversations.list", [("cursor", VStr "")],
      fst (listConversations w (new_SlackClient browser_config) [("cursor", VStr "")] h))]
  /\ all_requests (snd (listConversations w (new_SlackClient browser_config) [] h))
     = [("conversations.list", [],
         fst (listConversations w (new_SlackClient browser_config) [] h))]
  /\ Js.has "cursor" [("cursor", VStr "")] = true
  /\ Js.has "cursor" [] = false
  /\ form_bodies (snd (listConversations w (new_SlackClient browser_config)
                                         [("cursor", VStr "")] h))
     = [[("token", "xoxc-1"); ("cursor", "")]]
  /\ form_bodies (snd (listConversations w (new_SlackClient browser_config) [] h))
     = [[("token", "xoxc-1")]].
Proof.
  unfold listConversations. rewrite !all_requests_request.
  rewrite !(form_bodies_request_browser w (new_SlackClient browser_config)
              "T1" "acme" "https://acme.slack.com" "xoxd-1/2" "xoxc-1"
              "conversations.list" _ h eq_refl).
  repeat split.
Qed.

Lemma get_assign_if_num_same k n o :
  truthy_num n = true -> Js.get k (assign_if_num k (Some n) o) = Some (VNum n).
Proof.
  intros Hn. unfold assign_if_num. rewrite Hn. apply get_set_same.
Qed.

Lemma get_assign_if_num_String_same k n o :
  truthy_num n = true ->
  Js.get k (assign_if_num_String k (Some n) o) = Some (VStr (String_num n)).
Proof.
  intros Hn. unfold assign_if_num_String. rewrite Hn. apply get_set_same.
Qed.

(** C6, as the code has it.  A numeric option that is supplied and
    truthy (neither 0 nor NaN) is turned into its text by the method
    itself only in [searchAll] (count, page) and [getThreadsView]
    (limit); [getUploadUrl] does so for every length.  The limit of
    [getConversationHistory] and [getConversationReplies] enters the
    mapping as the number it is, and [listConversations] hands its
    options over unchanged; such a number becomes text only when the
    browser transport builds the form body, while the standard transport
    passes the mapping, number included, to the library client. *)
Theorem numeric_options_in_mapping (n : Num) :
  truthy_num n = true ->
  (forall query o, s_count o = Some n ->
      Js.get "count" (searchAll_params query o) = Some (VStr (String_num n)))
  /\ (forall query o, s_page o = Some n ->
         Js.get "page" (searchAll_params query o) = Some (VStr (String_num n)))
  /\ (forall current_ts o, tv_limit o = Some n ->
         Js.get "limit" (getThreadsView_params current_ts o)
         = Some (VStr (String_num n)))
  /\ (forall filename m,
         Js.get "length" (getUploadUrl_params filename m) = Some (VStr (String_num m)))
  /\ (forall channel o, h_limit o = Some n ->
         Js.get "limit" (getConversationHistory_params channel o) = Some (VNum n)
         /\ forall xoxc,
              form_get "limit" (formBody xoxc (getConversationHistory_params channel o))
              = Some (String_num n))
  /\ (forall channel ts o, h_limit o = Some n ->
         Js.get "limit" (getConversationReplies_params channel ts o) = Some (VNum n)
         /\ forall xoxc,
              form_get "limit" (formBody xoxc (getConversationReplies_params channel ts o))
              = Some (String_num n))
  /\ (forall w this options h,
         map (fun c => snd (fst c)) (all_requests (snd (listConversations w this options h)))
         = [options])
  /\ (forall w wid wname token tt method params h,
         api_calls (snd (request w (new_SlackClient (StandardAuthConfig wid wname token tt))
                                 method params h))
         = [(method, params)]).
Proof.
  intros Hn. repeat apply conj.
  - intros query o Ho. unfold searchAll_params. skip_assignments. rewrite Ho.
    now apply get_assign_if_num_String_same.
  - intros query o Ho. unfold searchAll_params. rewrite Ho.
    now apply get_assign_if_num_String_same.
  - intros current_ts o Ho. unfold getThreadsView_params. skip_assignments. rewrite Ho.
    now apply get_assign_if_num_String_same.
  - reflexivity.
  - intros channel o Ho.
    assert (Hget : Js.get "limit" (getConversationHistory_params channel o)
                   = Some (VNum n)).
    { unfold getConversationHistory_params. rewrite Ho.
      now apply get_assign_if_num_same. }
    split; [exact Hget |]. intros xoxc.
    apply (formBody_value xoxc "limit" (VNum n));
      [apply wf_getConversationHistory_params | exact Hget].
  - intros channel ts o Ho.
    assert (Hget : Js.get "limit" (getConversationReplies_params channel ts o)
                   = Some (VNum n)).
    { unfold getConversationReplies_params. rewrite Ho.
      now apply get_assign_if_num_same. }
    split; [exact Hget |]. intros xoxc.
    apply (formBody_value xoxc "limit" (VNum n));
      [apply wf_getConversationReplies_params | exact Hget].
  - intros w this options h. unfold listConversations.
    now rewrite all_requests_request.
  - intros. apply api_calls_request_standard.
Qed.

(** The theorem at a limit of 20. *)
Lemma numeric_options_in_mapping_witness :
  truthy_num (Int 20) = true
  /\ Js.get "limit"
            (getConversationHistory_params "C1"
               {| h_cursor := None; h_latest := None; h_oldest := None;
                  h_inclusive := None; h_limit := Some (Int 20) |})
     = Some (VNum (Int 20))
  /\ Js.get "count"
            (searchAll_params "report"
               {| s_sort := None; s_sort_dir := None; s_count := Some (Int 20);
                  s_page := None |})
     = Some (VStr "20").
Proof.
  split; [reflexivity |]. split.
  - exact (proj1 (proj1 (proj2 (proj2 (proj2 (proj2
             (numeric_options_in_mapping (Int 20) eq_refl)))))
             "C1"
             {| h_cursor := None; h_latest := None; h_oldest := None;
                h_inclusive := None; h_limit := Some (Int 20) |} eq_refl)).
  - exact (proj1 (numeric_options_in_mapping (Int 20) eq_refl) "report"
             {| s_sort := None; s_sort_dir := None; s_count := Some (Int 20);
                s_page := None |} eq_refl).
Defined.

(** C6 as stated fails: the limit of [getConversationHistory] enters
    the mapping as a number, not as its text, and with the standard
    transport that number is what the library client receives. *)
Lemma history_limit_stays_number :
  Js.get "limit"
         (getConversationHistory_params "C1"
            {| h_cursor := None; h_latest := None; h_oldest := None;
               h_inclusive := None; h_limit := Some (Int 5) |})
  = Some (VNum (Int 5))
  /\ Some (VNum (Int 5)) <> Some (VStr (String_num (Int 5)))
  /\ api_calls
       (snd (getConversationHistory (answering plain_response)
               (new_SlackClient standard_config) "C1"
               {| h_cursor := None; h_latest := None; h_oldest := None;
                  h_inclusive := None; h_limit := Some (Int 5) |} []))
     = [("conversations.history", [("channel", VStr "C1"); ("limit", VNum (Int 5))])].
Proof.
  split; [reflexivity | split; [discriminate | reflexivity]].
Qed.



(** ** The client at work *)

Example encodeURIComponent_cookie :
  encodeURIComponent "xoxd-a/b+c d" = "xoxd-a%2Fb%2Bc%20d".
Proof. reflexivity. Qed.

Example upload_filename_samples :
  upload_filename "/tmp/report.pdf" = "report.pdf"
  /\ upload_filename "notes.txt" = "notes.txt"
  /\ upload_filename "dir/" = "file".
Proof. repeat split. Qed.

Example String_samples :
  String_ (VNum (Int 100)) = "100"
  /\ String_ (VNum (Int (-7))) = "-7"
  /\ String_ (VNum NaN) = "NaN"
  /\ String_ (VBool false) = "false"
  /\ String_ VUndef = "undefined".
Proof. repeat split. Qed.

Example formBody_with_options :
  formBody "xoxc-1"
           (getConversationHistory_params "C1"
              {| h_cursor := Some ""; h_latest := None; h_oldest := Some "1700000000.0";
                 h_inclusive := Some true; h_limit := Some (Int 100) |})
  = [("token", "xoxc-1"); ("channel", "C1"); ("oldest", "1700000000.0");
     ("inclusive", "true"); ("limit", "100")].
Proof. reflexivity. Qed.

Example getUsersInfo_skips_unknown_user :
  fst (getUsersInfo knowing_U1 (new_SlackClient browser_config) ["U0"; "U1"; "U2"] [])
  = Ok {| users_ok := true; users := [ada] |}
  /\ console_errors
       (snd (getUsersInfo knowing_U1 (new_SlackClient standard_config)
                          ["U0"; "U1"; "U2"] []))
     = ["Failed to fetch user U0"; "Failed to fetch user U2"]
  /\ failures
       (snd (getUsersInfo knowing_U1 (new_SlackClient browser_config) ["U0"] []))
     = [ErrorObj "Slack API error: user_not_found"].
Proof. repeat split. Qed.

Example uploadFiles_two_files :
  map fst
      (finalize_calls
         (snd (uploadFiles (answering slot_response_F1) (new_SlackClient browser_config)
                           ["/tmp/a.txt"; "b.png"] no_upload_options [])))
  = [completeUpload_params
       [{| id := "F1"; title := Some "first" |}; {| id := "F1"; title := None |}]
       {| c_channel_id := Some "C1"; c_thread_ts := None; c_initial_comment := None |}]
  /\ collect (fun ev => match ev with EvProgress s => Some s | _ => None end)
             (snd (uploadFiles (answering slot_response_F1)
                               (new_SlackClient browser_config)
                               ["/tmp/a.txt"; "b.png"] no_upload_options []))
     = ["Uploading file 1/2: a.txt"; "Uploading file 2/2: b.png"; "Finalizing upload..."].
Proof. split; reflexivity. Qed.

Example uploadFiles_refused_transfer :
  fst (uploadFiles (refusing_transfers slot_response_F1) (new_SlackClient browser_config)
                   ["/tmp/a.txt"; "b.png"] no_upload_options [])
  = Throw (ErrorObj "File upload failed: HTTP 500")
  /\ List.length
       (slot_calls
          (snd (uploadFiles (refusing_transfers slot_response_F1)
                            (new_SlackClient browser_config)
                            ["/tmp/a.txt"; "b.png"] no_upload_options [])))
     = 1.
Proof. split; reflexivity. Qed.

Example mark_read_latest_message :
  map (fun c => (fst (fst c), snd (fst c)))
      (all_requests
         (snd (mark_read_action
                 (answering {| ok := true; error := None; user := None;
                               messages := Some [hello]; upload_url := ""; file_id := "" |})
                 "C1" None None [])))
  = [("conversations.history", [("channel", VStr "C1"); ("limit", VNum (Int 1))]);
     ("conversations.mark", [("channel", VStr "C1"); ("ts", VStr "1700000000.000100")])].
Proof. reflexivity. Qed.

Example mark_read_given_timestamp :
  map (fun c => (fst (fst c), snd (fst c)))
      (all_requests
         (snd (mark_read_action (answering plain_response) "C1" (Some "1700000001.5")
                                None [])))
  = [("conversations.mark", [("channel", VStr "C1"); ("ts", VStr "1700000001.5")])].
Proof. reflexivity. Qed.

(** * Further properties of the client *)

(** ** The dispatcher and its two transports *)

Lemma fst_recorded {A : Type} (record : Result A -> Event) (m : M A) (h : Trace) :
  fst (recorded record m h) = fst (m h).
Proof. unfold recorded. now destruct (m h). Qed.

Lemma fst_request_standard w wid wname token tt method params h :
  fst (request w (new_SlackClient (StandardAuthConfig wid wname token tt)) method params h)
  = match apiCall w h token method params with
    | Ok resp => Ok resp
    | Throw err => Throw (ErrorObj ("Slack API error: " ++ message_of err))
    end.
Proof.
  unfold request. rewrite fst_recorded. simpl.
  unfold standardRequest, try_catch, ask, throw. simpl.
  now destruct (apiCall w h token method params).
Qed.

Lemma fst_request_browser w this method params h :
  auth_type (config this) = browser ->
  fst (request w this method params h) = fst (browserRequest w this method params h).
Proof.
  intros Ha. unfold request. rewrite fst_recorded. now rewrite Ha.
Qed.

(** X1. A client built by the constructor raises only normalized failures
    from [request]: an [Error] whose message starts with
    "Slack API error:", whatever the transport and whatever was raised
    underneath.  The guards "WebClient not initialized" and "Invalid auth
    type" are never reached. *)
Theorem request_failure_normalized (w : World) (cfg : WorkspaceConfig)
        (method : string) (params : Obj) (h : Trace) (e : Thrown) :
  fst (request w (new_SlackClient cfg) method params h) = Throw e ->
  exists m, e = ErrorObj m /\ startsWith m "Slack API error:" = true.
Proof.
  destruct cfg as [wid wname token tt | wid wname url xoxd xoxc].
  - rewrite fst_request_standard.
    destruct (apiCall w h token method params) as [resp | err]; [discriminate |].
    intros [= <-]. eexists. split; reflexivity.
  - rewrite fst_request_browser by reflexivity. intros He.
    destruct (browserRequest_failure_wrapped
                w (new_SlackClient (BrowserAuthConfig wid wname url xoxd xoxc))
                wid wname url xoxd xoxc method params h e eq_refl He) as [err ->].
    apply browserRequest_catch_prefixed.
Qed.

Lemma request_failure_normalized_witness :
  exists m, ErrorObj "Slack API error: user_not_found" = ErrorObj m
            /\ startsWith m "Slack API error:" = true.
Proof.
  apply (request_failure_normalized knowing_U1 standard_config "users.info"
                                    (user_param "U0") []).
  reflexivity.
Defined.

(** X2. Each call of [request] on a constructed client is one interaction
    with one transport: under standard authentication one call of the
    library client with the configured token, the method and the mapping
    as given, and no [fetch]; under browser authentication one POST to
    the workspace address followed by /api/ and the method, with the
    cookie headers and the form body, and no call of the library. *)
Theorem request_uses_one_transport (w : World) (cfg : WorkspaceConfig)
        (method : string) (params : Obj) (h : Trace) :
  match cfg with
  | StandardAuthConfig _ _ token _ =>
      api_calls_with_token (snd (request w (new_SlackClient cfg) method params h))
      = [(token, method, params)]
      /\ fetches (snd (request w (new_SlackClient cfg) method params h)) = []
  | BrowserAuthConfig _ _ workspace_url xoxd_token xoxc_token =>
      api_calls_with_token (snd (request w (new_SlackClient cfg) method params h)) = []
      /\ fetches (snd (request w (new_SlackClient cfg) method params h))
         = [(workspace_url ++ "/api/" ++ method,
             {| http_method := "POST";
                headers := browser_headers xoxd_token;
                body := BodyURLSearchParams (formBody xoxc_token params) |})]
  end.
Proof.
  destruct cfg as [wid wname token tt | wid wname url xoxd xoxc];
    unfold request, recorded; simpl.
  - unfold standardRequest, try_catch, ask, throw. simpl.
    destruct (apiCall w h token method params); split; reflexivity.
  - unfold browserRequest, try_catch, bind, ask, throw, lift, ret. simpl.
    destruct (fetch w h _ _) as [response | e]; [| split; reflexivity].
    destruct (resp_ok response); simpl; [| split; reflexivity].
    destruct (resp_json response) as [data | e]; simpl; [| split; reflexivity].
    destruct (ok data); split; reflexivity.
Qed.

(** X3. [browserRequest] hands back an envelope only when the HTTP exchange
    succeeded, the body decoded and the envelope says ok: every envelope
    it returns has its ok flag set and is the decoded body itself. *)
Theorem browserRequest_returns_ok_envelopes (w : World) (this : SlackClient)
        (method : string) (params : Obj) (h : Trace) (data : SlackApiResponse) :
  fst (browserRequest w this method params h) = Ok data ->
  ok data = true
  /\ exists url init response,
       fetches (snd (browserRequest w this method params h)) = [(url, init)]
       /\ fetch w h url init = Ok response
       /\ resp_ok response = true
       /\ resp_json response = Ok data.
Proof.
  unfold browserRequest. destruct (config this); [discriminate |].
  unfold try_catch, bind, ask, throw, lift, ret.
  match goal with
  | |- context [fetch w h ?u ?i] => set (url := u); set (init := i)
  end.
  destruct (fetch w h url init) as [response | e] eqn:Ef; [| discriminate].
  destruct (resp_ok response) eqn:Er; cbn [fst snd negb]; [| discriminate].
  destruct (resp_json response) as [data' | e] eqn:Ej; cbn [fst snd negb];
    [| discriminate].
  destruct (ok data') eqn:Eo; cbn [fst snd negb]; [| discriminate].
  intros [= <-]. split; [exact Eo |].
  exists url, init, response. repeat split; assumption.
Qed.

Lemma browserRequest_returns_ok_envelopes_witness :
  ok slot_response_F1 = true
  /\ exists url init response,
       fetches (snd (browserRequest (answering slot_response_F1)
                                    (new_SlackClient browser_config)
                                    "files.getUploadURLExternal" [] []))
       = [(url, init)]
       /\ fetch (answering slot_response_F1) [] url init = Ok response
       /\ resp_ok response = true
       /\ resp_json response = Ok slot_response_F1.
Proof.
  apply (browserRequest_returns_ok_envelopes
           (answering slot_response_F1) (new_SlackClient browser_config)
           "files.getUploadURLExternal" [] []).
  reflexivity.
Defined.

(** X4. The failures of the browser transport, case by case.  An HTTP
    status that is not ok gives "Slack API error: HTTP error! status: N"
    and the body is not looked at; an envelope that is not ok gives the
    server's error code behind the prefix, and "Unknown API error" when
    the code is absent or empty; a failure of [fetch] or of the decoding
    goes through the catch clause. *)
Theorem browserRequest_failure_messages (w : World)
        (wid wname workspace_url xoxd xoxc method : string) (params : Obj) (h : Trace) :
  let this := new_SlackClient (BrowserAuthConfig wid wname workspace_url xoxd xoxc) in
  let url := workspace_url ++ "/api/" ++ method in
  let init := {| http_method := "POST"; headers := browser_headers xoxd;
                 body := BodyURLSearchParams (formBody xoxc params) |} in
  (forall err, fetch w h url init = Throw err ->
      fst (browserRequest w this method params h) = Throw (browserRequest_catch err))
  /\ (forall response, fetch w h url init = Ok response -> resp_ok response = false ->
         fst (browserRequest w this method params h)
         = Throw (ErrorObj ("Slack API error: HTTP error! status: "
                            ++ string_of_Z (resp_status response))))
  /\ (forall response err,
         fetch w h url init = Ok response -> resp_ok response = true ->
         resp_json response = Throw err ->
         fst (browserRequest w this method params h) = Throw (browserRequest_catch err))
  /\ (forall response data,
         fetch w h url init = Ok response -> resp_ok response = true ->
         resp_json response = Ok data -> ok data = false ->
         truthy_opt_str (error data) = false ->
         fst (browserRequest w this method params h)
         = Throw (ErrorObj "Slack API error: Unknown API error"))
  /\ (forall response data code,
         fetch w h url init = Ok response -> resp_ok response = true ->
         resp_json response = Ok data -> ok data = false ->
         error data = Some code -> truthy_str code = true ->
         fst (browserRequest w this method params h)
         = Throw (browserRequest_catch (ErrorObj code))).
Proof.
  cbv zeta. unfold browserRequest. cbn [config new_SlackClient].
  unfold try_catch, bind, ask, throw, lift, ret.
  repeat apply conj.
  - intros err ->. reflexivity.
  - intros response -> ->. reflexivity.
  - intros response err -> -> ->. reflexivity.
  - intros response data -> -> -> -> He. cbn [fst snd negb].
    destruct (error data) as [[| c s] |]; try reflexivity. discriminate.
  - intros response data code -> -> -> -> -> ->. reflexivity.
Qed.

(** X5. The standard transport relays the library's answer as it is, even
    an envelope whose ok flag is false, and puts the prefix before the
    message of every failure, also one that already carries it: the
    single-wrap guard exists on the browser path only. *)
Theorem standardRequest_relays_and_wraps (w : World)
        (wid wname token : string) (tt : TokenType) (method : string) (params : Obj)
        (h : Trace) :
  let this := new_SlackClient (StandardAuthConfig wid wname token tt) in
  (forall resp, apiCall w h token method params = Ok resp ->
                fst (request w this method params h) = Ok resp)
  /\ (forall err, apiCall w h token method params = Throw err ->
                  fst (request w this method params h)
                  = Throw (ErrorObj ("Slack API error: " ++ message_of err)))
  /\ (forall m, apiCall w h token method params
                = Throw (ErrorObj ("Slack API error: " ++ m)) ->
                fst (request w this method params h)
                = Throw (ErrorObj ("Slack API error: Slack API error: " ++ m))
                /\ browserRequest_catch (ErrorObj ("Slack API error: " ++ m))
                   = ErrorObj ("Slack API error: " ++ m)).
Proof.
  cbv zeta. repeat apply conj.
  - intros resp Hr. now rewrite fst_request_standard, Hr.
  - intros err Hr. now rewrite fst_request_standard, Hr.
  - intros m Hr. rewrite fst_request_standard, Hr. split; reflexivity.
Qed.

Example standard_transport_nests_prefix :
  fst (request (raising "Slack API error: ratelimited") (new_SlackClient standard_config)
               "auth.test" [] [])
  = Throw (ErrorObj "Slack API error: Slack API error: ratelimited")
  /\ fst (request (raising "Slack API error: ratelimited")
                  (new_SlackClient browser_config) "auth.test" [] [])
     = Throw (ErrorObj "Slack API error: ratelimited").
Proof. split; reflexivity. Qed.

(** ** What the browser transport puts on the wire *)








Lemma uri_unreserved_hex_upper (n : nat) : uri_unreserved (hex_upper n) = true.
Proof.
  do 16 (destruct n as [| n]; [reflexivity |]). reflexivity.
Qed.

Lemma encodeURIComponent_chars (s : string) (c : ascii) :
  In c (chars (encodeURIComponent s)) -> uri_unreserved c = true \/ c = "%"%char.
Proof.
  induction s as [| a s IH]; simpl.
  - intros [].
  - destruct (uri_unreserved a) eqn:Ea; simpl.
    + intros [<- | Hin]; [now left | now apply IH].
    + intros [<- | [<- | [<- | Hin]]].
      * now right.
      * left. apply uri_unreserved_hex_upper.
      * left. apply uri_unreserved_hex_upper.
      * now apply IH.
Qed.

Lemma encodeURIComponent_unchanged (s : string) :
  (forall c, In c (chars s) -> uri_unreserved c = true) -> encodeURIComponent s = s.
Proof.
  induction s as [| a s IH]; simpl; intros Hs.
  - reflexivity.
  - rewrite (Hs a (or_introl eq_refl)). f_equal. apply IH. intros c Hc. apply Hs. now right.
Qed.

(** X7. The cookie header.  Whatever the session cookie holds, the header
    is d= followed by text made of letters, digits, the marks
    - _ . ! ~ * ' ( ) and percent signs only: no semicolon, comma, space,
    equals sign or control character can end the cookie or start another
    one.  A cookie that holds only such characters is sent as it is. *)
Theorem cookie_header_is_encoded (xoxd : string) :
  exists value,
    In ("Cookie", "d=" ++ value) (browser_headers xoxd)
    /\ (forall c, In c (chars value) -> uri_unreserved c = true \/ c = "%"%char)
    /\ (forall c, In c (chars value) ->
                  c <> ";"%char /\ c <> ","%char /\ c <> " "%char /\ c <> "="%char
                  /\ 32 < nat_of_ascii c < 127)
    /\ ((forall c, In c (chars xoxd) -> uri_unreserved c = true) -> value = xoxd).
Proof.
  exists (encodeURIComponent xoxd). split; [now left |].
  split; [apply encodeURIComponent_chars |]. split.
  - intros c Hc. apply encodeURIComponent_chars in Hc.
    assert (Hsafe : 32 < nat_of_ascii c < 127
                    /\ nat_of_ascii c <> 59 /\ nat_of_ascii c <> 44
                    /\ nat_of_ascii c <> 61).
    { destruct Hc as [Hu | ->]; [| change (nat_of_ascii "%") with 37; lia].
      unfold uri_unreserved in Hu. remember (nat_of_ascii c) as n eqn:En. clear En.
      unfold between in Hu. cbn [existsb] in Hu.
      repeat match goal with
             | H : _ || _ = true |- _ => apply orb_true_iff in H as [H | H]
             | H : _ && _ = true |- _ => apply andb_true_iff in H as [? ?]
             | H : Nat.leb _ _ = true |- _ => apply Nat.leb_le in H
             | H : Nat.eqb _ _ = true |- _ => apply Nat.eqb_eq in H
             | H : false = true |- _ => discriminate H
             end; lia. }
    destruct Hsafe as (Hr & H59 & H44 & H61).
    repeat split; try lia; intros ->;
      first [ now apply H59 | now apply H44 | now apply H61
            | change (nat_of_ascii " ") with 32 in Hr; lia ].
  - apply encodeURIComponent_unchanged.
Qed.

(** ** The name a file is uploaded under *)

Lemma last_segment_from_no_slash (s cur : string) :
  ~ In "/"%char (chars cur) -> ~ In "/"%char (chars (last_segment_from cur s)).
Proof.
  revert cur. induction s as [| c s IH]; intros cur Hcur; simpl.
  - exact Hcur.
  - destruct (Ascii.eqb_spec c "/") as [-> | Hne].
    + apply IH. intros [].
    + apply IH. intros Hin. apply Hcur. clear IH Hcur.
      induction cur as [| a cur IHc]; simpl in *.
      * destruct Hin as [Heq | []]. now apply Hne.
      * destruct Hin as [Heq | Hin]; [now left | right; now apply IHc].
Qed.

Lemma last_segment_from_after_slash (dir name cur : string) :
  last_segment_from cur (dir ++ String "/" name) = last_segment_from EmptyString name.
Proof.
  revert cur. induction dir as [| c dir IH]; intros cur; simpl.
  - reflexivity.
  - destruct (Ascii.eqb c "/"); apply IH.
Qed.

Lemma append_assoc_char (cur : string) (c : ascii) (s : string) :
  (cur ++ String c EmptyString) ++ s = cur ++ String c s.
Proof.
  induction cur as [| a cur IH]; simpl; [reflexivity | now rewrite IH].
Qed.

Lemma last_segment_from_plain (name cur : string) :
  ~ In "/"%char (chars name) -> last_segment_from cur name = cur ++ name.
Proof.
  revert cur. induction name as [| c name IH]; intros cur Hn; simpl.
  - induction cur as [| a cur IHc]; simpl; [reflexivity | now rewrite <- IHc].
  - destruct (Ascii.eqb_spec c "/") as [-> | Hne].
    + exfalso. apply Hn. now left.
    + rewrite IH by (intros Hin; apply Hn; now right).
      apply append_assoc_char.
Qed.

(** X8. The name sent for a file is never empty and never holds a slash: it
    is the part of the path after the last slash, and "file" when that
    part is empty (a path that ends in a slash, or the empty path). *)
Theorem upload_filename_is_last_segment (filePath : string) :
  upload_filename filePath <> ""
  /\ ~ In "/"%char (chars (upload_filename filePath))
  /\ (forall dir name, filePath = dir ++ String "/" name ->
                       ~ In "/"%char (chars name) ->
                       upload_filename filePath = if truthy_str name then name else "file")
  /\ (~ In "/"%char (chars filePath) ->
      upload_filename filePath = if truthy_str filePath then filePath else "file").
Proof.
  unfold upload_filename, split_pop. repeat apply conj.
  - destruct (last_segment_from EmptyString filePath) eqn:E; simpl; discriminate.
  - destruct (truthy_str (last_segment_from EmptyString filePath)) eqn:E.
    + apply last_segment_from_no_slash. intros [].
    + simpl. intuition discriminate.
  - intros dir name -> Hname.
    rewrite last_segment_from_after_slash, last_segment_from_plain by exact Hname.
    reflexivity.
  - intros Hplain. rewrite last_segment_from_plain by exact Hplain. reflexivity.
Qed.

(** ** More on the upload orchestrator *)

Lemma above_file_read : above_transport file_read.
Proof. above. Qed.

Lemma above_progress :
  above_transport (fun ev => match ev with EvProgress s => Some s | _ => None end).
Proof. above. Qed.

Lemma form_data_sent_request w this method params h :
  form_data_sent (snd (request w this method params h)) = [].
Proof.
  unfold request, recorded. destruct (auth_type (config this)).
  - unfold standardRequest. destruct (webClient this) as [wc |]; [| reflexivity].
    unfold try_catch, ask, throw.
    destruct (apiCall w h (wc_token wc) method params); reflexivity.
  - unfold browserRequest. destruct (config this); [reflexivity |].
    unfold try_catch, bind, ask, throw, lift, ret.
    destruct (fetch w h _ _) as [response | e]; [| reflexivity].
    destruct (resp_ok response); simpl; [| reflexivity].
    destruct (resp_json response) as [data | e]; simpl; [| reflexivity].
    destruct (ok data); reflexivity.
Qed.

Lemma form_data_sent_uploadToUrl w uploadUrl fileContent filename h :
  form_data_sent (snd (uploadToUrl w uploadUrl fileContent filename h))
  = [(uploadUrl, [fileContent])].
Proof.
  unfold uploadToUrl, recorded, bind, ask, throw, ret.
  destruct (fetch w h _ _) as [response | e]; simpl; [| reflexivity].
  destruct (resp_ok response); reflexivity.
Qed.

Lemma form_data_sent_app (l1 l2 : list Event) :
  form_data_sent (l1 ++ l2) = (form_data_sent l1 ++ form_data_sent l2)%list.
Proof. apply collect_app. Qed.

Lemma form_data_sent_onProgress options step h :
  form_data_sent (snd (onProgress options step h)) = [].
Proof. unfold onProgress. now destruct (u_onProgress options). Qed.

Lemma form_data_sent_read path r : form_data_sent [EvReadFile path r] = [].
Proof. reflexivity. Qed.

Lemma progress_steps_onProgress options step h :
  fst (onProgress options step h) = Ok tt
  /\ progress_steps (snd (onProgress options step h))
     = if u_onProgress options then [step] else [].
Proof.
  unfold onProgress. destruct (u_onProgress options); split; reflexivity.
Qed.

Ltac above_more :=
  first [ above_any | apply above_file_read | apply above_progress ].

(** Read the events of one turn of the upload loop, also below the
    level of the methods. *)
Ltac read_wire :=
  cbn [fst snd];
  unfold progress_steps, files_read, slot_calls, slots_granted, requests_of in *;
  unfold ask; cbn [snd];
  rewrite ?collect_app;
  unfold getUploadUrl in *;
  rewrite ?collect_request by above_more;
  rewrite ?collect_uploadToUrl by above_more;
  rewrite ?form_data_sent_app, ?form_data_sent_request, ?form_data_sent_uploadToUrl,
    ?form_data_sent_onProgress, ?form_data_sent_read.

(** What a run of the upload loop reports and sends: one step per file
    read when a sink is given; for every slot request, the length of the
    bytes read for its file; for every granted slot, one multipart body
    sent to the destination of that slot with exactly those bytes. *)
Lemma uploadFiles_loop_wire w this options total rest :
  forall i fileEntries h,
    let evs := snd (uploadFiles_loop w this rest i total options fileEntries h) in
    progress_steps evs
    = (if u_onProgress options
       then upload_steps i total (firstn (List.length (files_read evs)) rest)
       else [])
    /\ map (fun c => Js.get "length" (fst c)) (slot_calls evs)
       = map (fun content => Some (VStr (string_of_nat (List.length content))))
             (files_read evs)
    /\ form_data_sent evs
       = combine (map (fun s => upload_url (snd s)) (slots_granted evs))
                 (map (fun content => [content]) (files_read evs))
    /\ List.length (slots_granted evs) <= List.length (files_read evs)
    /\ List.length (files_read evs) <= List.length rest.
Proof.
  induction rest as [| filePath rest IH]; intros i fileEntries h; cbv zeta.
  - simpl. destruct (u_onProgress options); auto.
  - cbn [uploadFiles_loop].
    destruct (arrayBuffer w h filePath) as [fileContent | e] eqn:Eread.
    + rewrite (@bind_Ok _ _ _ _ h fileContent) by (unfold ask; simpl; now rewrite Eread).
      set (h1 := (h ++ _)%list).
      set (step := ("Uploading file " ++ _)%string).
      destruct (progress_steps_onProgress options step h1) as [Hp Hsteps].
      rewrite (@bind_Ok _ _ _ _ h1 tt) by exact Hp.
      set (h2 := (h1 ++ _)%list).
      set (len := Int (Z.of_nat (List.length fileContent))).
      destruct (fst (getUploadUrl w this (upload_filename filePath) len h2))
        as [slot | e] eqn:Eslot.
      * rewrite (@bind_Ok _ _ _ _ h2 slot) by exact Eslot.
        set (h3 := (h2 ++ _)%list).
        destruct (fst (uploadToUrl w (upload_url slot) fileContent
                                   (upload_filename filePath) h3))
          as [[] | e] eqn:Eup.
        -- rewrite (@bind_Ok _ _ _ _ h3 tt) by exact Eup.
           set (h4 := (h3 ++ _)%list).
           specialize (IH (S i) (fileEntries ++ [make_entry options i (file_id slot)])%list h4).
           cbv zeta in IH. destruct IH as (IHp & IHl & IHf & IHs & IHr).
           read_wire. rewrite Eread, Eslot, Eup.
           clear Hp Hsteps. unfold onProgress.
           destruct (u_onProgress options); cbn;
             rewrite ?IHp, IHl, IHf; repeat split; try reflexivity; lia.
        -- rewrite (@bind_Throw _ _ _ _ h3 e) by exact Eup.
           read_wire. rewrite Eread, Eslot, Eup.
           clear Hp Hsteps. unfold onProgress.
           destruct (u_onProgress options); cbn; repeat split; try reflexivity; lia.
      * rewrite (@bind_Throw _ _ _ _ h2 e) by exact Eslot.
        read_wire. rewrite Eread, Eslot.
        clear Hp Hsteps. unfold onProgress.
        destruct (u_onProgress options); cbn; repeat split; try reflexivity; lia.
    + rewrite (@bind_Throw _ _ _ _ h e) by (unfold ask; simpl; now rewrite Eread).
      unfold ask. cbn. rewrite Eread. cbn.
      destruct (u_onProgress options); repeat split; try reflexivity; lia.
Qed.

(** X9. The transfer is a direct POST that carries no credentials: no
    header at all, one multipart part named file with the bytes and the
    name given, and nothing sent through [request]; it succeeds exactly
    when the HTTP status is ok, without reading the body; its failures
    are raised as they are, "File upload failed: HTTP N" for a status
    that is not ok, without the prefix of the API transports. *)
Theorem uploadToUrl_is_direct (w : World) (uploadUrl : string) (fileContent : list byte)
        (filename : string) (h : Trace) :
  let init := {| http_method := "POST"; headers := [];
                 body := BodyFormData [{| fd_name := "file"; fd_blob := fileContent;
                                          fd_filename := filename |}] |} in
  fetches (snd (uploadToUrl w uploadUrl fileContent filename h)) = [(uploadUrl, init)]
  /\ all_requests (snd (uploadToUrl w uploadUrl fileContent filename h)) = []
  /\ api_calls_with_token (snd (uploadToUrl w uploadUrl fileContent filename h)) = []
  /\ (forall response, fetch w h uploadUrl init = Ok response ->
         fst (uploadToUrl w uploadUrl fileContent filename h)
         = if resp_ok response then Ok tt
           else Throw (ErrorObj ("File upload failed: HTTP "
                                 ++ string_of_Z (resp_status response))))
  /\ (forall err, fetch w h uploadUrl init = Throw err ->
         fst (uploadToUrl w uploadUrl fileContent filename h) = Throw err).
Proof.
  cbv zeta. unfold uploadToUrl, recorded, bind, ask, throw, ret.
  destruct (fetch w h _ _) as [response | e]; cbn [fst snd].
  - destruct (resp_ok response) eqn:Er; cbn; repeat split; try discriminate;
      intros response' [= <-]; now rewrite Er.
  - cbn. repeat split; try discriminate. now intros err [= <-].
Qed.

Lemma finalize_request_readings w this params h :
  files_read (snd (request w this "files.completeUploadExternal" params h)) = []
  /\ slot_calls (snd (request w this "files.completeUploadExternal" params h)) = []
  /\ slots_granted (snd (request w this "files.completeUploadExternal" params h)) = []
  /\ progress_steps (snd (request w this "files.completeUploadExternal" params h)) = []
  /\ finalize_calls (snd (request w this "files.completeUploadExternal" params h))
     = [(params, fst (request w this "files.completeUploadExternal" params h))].
Proof.
  unfold files_read, slot_calls, slots_granted, progress_steps, finalize_calls, requests_of.
  rewrite !collect_request by above_more.
  destruct (fst (request w this "files.completeUploadExternal" params h));
    repeat split; reflexivity.
Qed.

(** How a run of [uploadFiles] splits into the loop and the finalize
    call. *)
Lemma uploadFiles_run w this filePaths options h :
  let loop := uploadFiles_loop w this filePaths 0 (List.length filePaths) options [] h in
  match fst loop with
  | Throw e =>
      uploadFiles w this filePaths options h = (Throw e, snd loop)
  | Ok entries =>
      exists h',
        uploadFiles w this filePaths options h
        = (fst (completeUpload w this entries (complete_options options) h'),
           (snd loop
            ++ (if u_onProgress options then [EvProgress "Finalizing upload..."] else [])
            ++ snd (completeUpload w this entries (complete_options options) h'))%list)
  end.
Proof.
  cbv zeta. unfold uploadFiles.
  destruct (fst (uploadFiles_loop w this filePaths 0 (List.length filePaths) options [] h))
    as [entries | e] eqn:Eloop.
  - rewrite (@bind_Ok _ _ _ _ h entries) by exact Eloop.
    set (h1 := (h ++ _)%list).
    destruct (progress_steps_onProgress options "Finalizing upload..." h1) as [Hp _].
    rewrite (@bind_Ok _ _ _ _ h1 tt) by exact Hp.
    exists (h1 ++ snd (onProgress options "Finalizing upload..." h1))%list.
    unfold complete_options, onProgress.
    now destruct (u_onProgress options).
  - now rewrite (@bind_Throw _ _ _ _ h e) by exact Eloop.
Qed.

(** X10. The progress reported by [uploadFiles].  Without a sink nothing is
    reported.  With a sink there is one step "Uploading file i/M: name"
    for each file that could be read, in order and counted from 1,
    followed by "Finalizing upload..." exactly when the finalize call is
    issued; when every file is transferred, that is one step per path
    and the final one. *)
Theorem uploadFiles_reports_progress (w : World) (this : SlackClient)
        (filePaths : list string) (options : UploadOptions) (h : Trace) :
  let evs := snd (uploadFiles w this filePaths options h) in
  (u_onProgress options = false -> progress_steps evs = [])
  /\ (u_onProgress options = true ->
      progress_steps evs
      = (upload_steps 0 (List.length filePaths)
                      (firstn (List.length (files_read evs)) filePaths)
         ++ match finalize_calls evs with
            | [] => []
            | _ :: _ => ["Finalizing upload..."]
            end)%list)
  /\ (u_onProgress options = true ->
      List.length (transfers_done evs) = List.length filePaths ->
      progress_steps evs
      = (upload_steps 0 (List.length filePaths) filePaths
         ++ ["Finalizing upload..."])%list).
Proof.
  cbv zeta.
  pose proof (uploadFiles_run w this filePaths options h) as Hrun. cbv zeta in Hrun.
  pose proof (uploadFiles_loop_wire w this options (List.length filePaths) filePaths 0 [] h)
    as Hwire. cbv zeta in Hwire. destruct Hwire as (Hsteps & _ & _ & Hle1 & Hle2).
  pose proof (uploadFiles_loop_spec w this options (List.length filePaths) filePaths 0 [] h)
    as [Hfin Hres].
  assert (Hgeneral :
            progress_steps (snd (uploadFiles w this filePaths options h))
            = if u_onProgress options
              then (upload_steps 0 (List.length filePaths)
                      (firstn (List.length
                                 (files_read (snd (uploadFiles w this filePaths options h))))
                              filePaths)
                    ++ match finalize_calls (snd (uploadFiles w this filePaths options h)) with
                       | [] => []
                       | _ :: _ => ["Finalizing upload..."]
                       end)%list
              else []).
  { destruct (fst (uploadFiles_loop w this filePaths 0 (List.length filePaths) options [] h))
      as [entries | e].
    - destruct Hrun as [h' ->]. cbn [snd].
      destruct (finalize_request_readings
                  w this (completeUpload_params entries (complete_options options)) h')
        as (Hr & _ & _ & Hp & Hf).
      unfold completeUpload.
      unfold progress_steps, files_read, finalize_calls, requests_of in *.
      rewrite !collect_app, Hr, Hp, Hf, Hfin, Hsteps.
      destruct (u_onProgress options); cbn; rewrite ?app_nil_r; reflexivity.
    - rewrite Hrun. cbn [snd]. rewrite Hsteps, Hfin, app_nil_r. reflexivity. }
  repeat apply conj.
  - intros Hoff. now rewrite Hgeneral, Hoff.
  - intros Hon. now rewrite Hgeneral, Hon.
  - intros Hon Hall.
    destruct (uploadFiles_spec w this filePaths options h)
      as [(e & _ & _ & _ & Hlt) | (_ & _ & Hslots & Hfinal)]; [lia |].
    rewrite Hgeneral, Hon, Hfinal. f_equal. f_equal.
    assert (Hn : List.length filePaths
                 <= List.length (files_read (snd (uploadFiles w this filePaths options h)))).
    { destruct (fst (uploadFiles_loop w this filePaths 0 (List.length filePaths)
                                      options [] h)) as [entries | e].
      - destruct Hrun as [h' Hrun]. rewrite Hrun. cbn [snd].
        destruct Hres as (_ & _ & Hmap & _).
        apply (f_equal (@List.length _)) in Hmap. rewrite !length_map in Hmap.
        unfold files_read. rewrite collect_app. rewrite length_app.
        fold (files_read (snd (uploadFiles_loop w this filePaths 0
                                 (List.length filePaths) options [] h))).
        lia.
      - rewrite Hrun in Hall. cbn [snd] in Hall. destruct Hres as (_ & Hlt). lia. }
    now apply firstn_all2.
Qed.

(** X11. What [uploadFiles] declares and sends.  The length declared in each
    slot request is the number of bytes read for that file; every
    multipart body goes to the destination returned by the slot request
    of its file and holds exactly the bytes read for it; and no body is
    sent without a granted slot, no slot requested without a file read. *)
Theorem uploadFiles_sends_what_it_read (w : World) (this : SlackClient)
        (filePaths : list string) (options : UploadOptions) (h : Trace) :
  let evs := snd (uploadFiles w this filePaths options h) in
  map (fun c => Js.get "length" (fst c)) (slot_calls evs)
  = map (fun content => Some (VStr (string_of_nat (List.length content)))) (files_read evs)
  /\ form_data_sent evs
     = combine (map (fun s => upload_url (snd s)) (slots_granted evs))
               (map (fun content => [content]) (files_read evs))
  /\ List.length (slots_granted evs) <= List.length (files_read evs)
  /\ List.length (files_read evs) <= List.length filePaths.
Proof.
  cbv zeta.
  pose proof (uploadFiles_run w this filePaths options h) as Hrun. cbv zeta in Hrun.
  pose proof (uploadFiles_loop_wire w this options (List.length filePaths) filePaths 0 [] h)
    as Hwire. cbv zeta in Hwire. destruct Hwire as (_ & Hlen & Hsent & Hle1 & Hle2).
  destruct (fst (uploadFiles_loop w this filePaths 0 (List.length filePaths) options [] h))
    as [entries | e].
  - destruct Hrun as [h' ->]. cbn [snd].
    destruct (finalize_request_readings
                w this (completeUpload_params entries (complete_options options)) h')
      as (Hr & Hc & Hg & _ & _).
    unfold completeUpload.
    rewrite !form_data_sent_app, form_data_sent_request.
    unfold files_read, slot_calls, slots_granted, requests_of in *.
    rewrite !collect_app, Hr, Hc, Hg.
    assert (Hq : forall b : bool,
               form_data_sent (if b then [EvProgress "Finalizing upload..."] else []) = [])
      by (now intros []).
    rewrite Hq.
    destruct (u_onProgress options); cbn; rewrite !app_nil_r; auto.
  - rewrite Hrun. cbn [snd]. auto.
Qed.

(** X12. With no file at all [uploadFiles] still issues the finalize call:
    nothing is read, requested or transferred, and the one request is
    files.completeUploadExternal with an empty list of files. *)
Theorem uploadFiles_without_files (w : World) (this : SlackClient)
        (options : UploadOptions) (h : Trace) :
  let evs := snd (uploadFiles w this [] options h) in
  files_read evs = []
  /\ form_data_sent evs = []
  /\ (exists params,
         all_requests evs
         = [("files.completeUploadExternal", params, fst (uploadFiles w this [] options h))]
         /\ Js.get "files" params = Some (VStr "[]")
         /\ params = completeUpload_params [] (complete_options options)).
Proof.
  cbv zeta.
  pose proof (uploadFiles_run w this [] options h) as Hrun. cbv zeta in Hrun.
  cbn [uploadFiles_loop ret fst snd List.length] in Hrun. destruct Hrun as [h' ->].
  cbn [fst snd app]. unfold completeUpload.
  pose proof (all_requests_request w this "files.completeUploadExternal"
                (completeUpload_params [] (complete_options options)) h') as Hreq.
  destruct (finalize_request_readings
              w this (completeUpload_params [] (complete_options options)) h')
    as (Hr & _).
  unfold files_read, all_requests in *.
  rewrite !form_data_sent_app, form_data_sent_request, !collect_app, Hr, Hreq.
  destruct (u_onProgress options); cbn; repeat split.
  all: eexists; repeat split;
    unfold completeUpload_params; skip_assignments; reflexivity.
Qed.

(** ** Optional parameters *)

Lemma get_assign_if_str k value o :
  Js.get k (assign_if_str k value o)
  = match absent_if_falsy_str value with
    | Some s => Some (VStr s)
    | None => Js.get k o
    end.
Proof.
  unfold assign_if_str, absent_if_falsy_str.
  destruct value as [s |]; simpl; [| reflexivity].
  destruct (truthy_str s); [apply get_set_same | reflexivity].
Qed.

Lemma get_assign_if_num k value o :
  Js.get k (assign_if_num k value o)
  = match absent_if_falsy_num value with
    | Some n => Some (VNum n)
    | None => Js.get k o
    end.
Proof.
  unfold assign_if_num, absent_if_falsy_num.
  destruct value as [n |]; simpl; [| reflexivity].
  destruct (truthy_num n); [apply get_set_same | reflexivity].
Qed.

Lemma get_assign_if_defined_bool k value o :
  Js.get k (assign_if_defined_bool k value o)
  = match value with
    | Some b => Some (VBool b)
    | None => Js.get k o
    end.
Proof.
  unfold assign_if_defined_bool. destruct value; [apply get_set_same | reflexivity].
Qed.

(** X13. Which optional keys the history and replies methods send.  A
    cursor, latest or oldest bound is sent exactly when it is a
    non-empty string; the limit exactly when it is a number other than 0
    and NaN, so that [parseInt] of text that is no number leaves the
    limit to the server; the inclusive flag whenever it is defined, also
    when it is false, and it then reaches the form body as the text
    "false". *)
Theorem history_optional_keys (channel ts : string) (o : HistoryOptions) :
  let sent p :=
    Js.get "cursor" p = option_map VStr (absent_if_falsy_str (h_cursor o))
    /\ Js.get "latest" p = option_map VStr (absent_if_falsy_str (h_latest o))
    /\ Js.get "oldest" p = option_map VStr (absent_if_falsy_str (h_oldest o))
    /\ Js.get "inclusive" p = option_map VBool (h_inclusive o)
    /\ Js.get "limit" p = option_map VNum (absent_if_falsy_num (h_limit o))
    /\ (h_limit o = Some NaN \/ h_limit o = Some (Int 0) ->
        forall xoxc, form_get "limit" (formBody xoxc p) = None)
    /\ (h_inclusive o = Some false ->
        forall xoxc, form_get "inclusive" (formBody xoxc p) = Some "false") in
  sent (getConversationHistory_params channel o)
  /\ sent (getConversationReplies_params channel ts o).
Proof.
  cbv zeta.
  assert (Hh : Js.get "limit" (getConversationHistory_params channel o)
               = option_map VNum (absent_if_falsy_num (h_limit o))).
  { unfold getConversationHistory_params. rewrite get_assign_if_num.
    destruct (absent_if_falsy_num (h_limit o)); [reflexivity |].
    skip_assignments. reflexivity. }
  assert (Hr : Js.get "limit" (getConversationReplies_params channel ts o)
               = option_map VNum (absent_if_falsy_num (h_limit o))).
  { unfold getConversationReplies_params. rewrite get_assign_if_num.
    destruct (absent_if_falsy_num (h_limit o)); [reflexivity |].
    skip_assignments. reflexivity. }
  assert (Hih : Js.get "inclusive" (getConversationHistory_params channel o)
                = option_map VBool (h_inclusive o)).
  { unfold getConversationHistory_params. skip_assignments.
    rewrite get_assign_if_defined_bool.
    destruct (h_inclusive o); [reflexivity |]. skip_assignments. reflexivity. }
  assert (Hir : Js.get "inclusive" (getConversationReplies_params channel ts o)
                = option_map VBool (h_inclusive o)).
  { unfold getConversationReplies_params. skip_assignments.
    rewrite get_assign_if_defined_bool.
    destruct (h_inclusive o); [reflexivity |]. skip_assignments. reflexivity. }
  split; repeat apply conj; try assumption.
  1-3, 6-8:
    unfold getConversationHistory_params, getConversationReplies_params;
    skip_assignments; rewrite get_assign_if_str;
    match goal with
    | |- context [absent_if_falsy_str ?v] => destruct (absent_if_falsy_str v)
    end; [reflexivity |]; skip_assignments; reflexivity.
  - intros Hl xoxc. apply formBody_absent_iff. split; [discriminate |].
    rewrite Hh. now destruct Hl as [-> | ->].
  - intros Hi xoxc.
    apply (formBody_value xoxc "inclusive" (VBool false));
      [apply wf_getConversationHistory_params | now rewrite Hih, Hi].
  - intros Hl xoxc. apply formBody_absent_iff. split; [discriminate |].
    rewrite Hr. now destruct Hl as [-> | ->].
  - intros Hi xoxc.
    apply (formBody_value xoxc "inclusive" (VBool false));
      [apply wf_getConversationReplies_params | now rewrite Hir, Hi].
Qed.

Ltac by_cases_on_options :=
  repeat match goal with
         | o : option string |- _ => destruct o as [[| ? ?] |]
         | o : option Num |- _ => destruct o as [[| [| ? | ?]] |]
         | o : option bool |- _ => destruct o as [[|] |]
         end;
  reflexivity.

(** X14. For every method that shapes optional parameters, a value that
    tests false (an empty string, the number 0, NaN) is the same as no
    value: the mapping built is the one built with the option left out. *)
Theorem falsy_options_are_omitted :
  (forall channel cursor latest oldest inclusive limit,
      getConversationHistory_params channel
        {| h_cursor := cursor; h_latest := latest; h_oldest := oldest;
           h_inclusive := inclusive; h_limit := limit |}
      = getConversationHistory_params channel
          {| h_cursor := absent_if_falsy_str cursor;
             h_latest := absent_if_falsy_str latest;
             h_oldest := absent_if_falsy_str oldest;
             h_inclusive := inclusive; h_limit := absent_if_falsy_num limit |})
  /\ (forall channel ts cursor latest oldest inclusive limit,
         getConversationReplies_params channel ts
           {| h_cursor := cursor; h_latest := latest; h_oldest := oldest;
              h_inclusive := inclusive; h_limit := limit |}
         = getConversationReplies_params channel ts
             {| h_cursor := absent_if_falsy_str cursor;
                h_latest := absent_if_falsy_str latest;
                h_oldest := absent_if_falsy_str oldest;
                h_inclusive := inclusive; h_limit := absent_if_falsy_num limit |})
  /\ (forall channel text thread_ts,
         postMessage_params channel text {| p_thread_ts := thread_ts |}
         = postMessage_params channel text
             {| p_thread_ts := absent_if_falsy_str thread_ts |})
  /\ (forall query sort sort_dir count page,
         searchAll_params query
           {| s_sort := sort; s_sort_dir := sort_dir; s_count := count; s_page := page |}
         = searchAll_params query
             {| s_sort := absent_if_falsy_str sort;
                s_sort_dir := absent_if_falsy_str sort_dir;
                s_count := absent_if_falsy_num count;
                s_page := absent_if_falsy_num page |})
  /\ (forall files channel_id thread_ts initial_comment,
         completeUpload_params files
           {| c_channel_id := channel_id; c_thread_ts := thread_ts;
              c_initial_comment := initial_comment |}
         = completeUpload_params files
             {| c_channel_id := absent_if_falsy_str channel_id;
                c_thread_ts := absent_if_falsy_str thread_ts;
                c_initial_comment := absent_if_falsy_str initial_comment |})
  /\ (forall current_ts limit max_ts,
         getThreadsView_params current_ts {| tv_limit := limit; tv_max_ts := max_ts |}
         = getThreadsView_params current_ts
             {| tv_limit := absent_if_falsy_num limit;
                tv_max_ts := absent_if_falsy_str max_ts |}).
Proof.
  repeat apply conj; intros; try by_cases_on_options.
Qed.

(** ** The commands *)

(** X15. Marking as read with a timestamp given is one request: the mark
    call for that channel and timestamp, with no look at the history.
    Once a client is obtained the action never raises: it ends normally
    after the call, with exit status 1 exactly when the call failed.
    When no client could be obtained nothing is requested, and the
    action exits with status 1 if the message of what was raised can be
    read; if that was [null] or [undefined] the catch clause raises in
    its turn, and so does the action, without an exit. *)
Theorem mark_read_with_timestamp (w : World) (channelId t : string)
        (workspace : option string) (h : Trace) :
  truthy_str t = true ->
  match all_requests (snd (mark_read_action w channelId (Some t) workspace h)) with
  | [] =>
      exists e,
        failures (snd (mark_read_action w channelId (Some t) workspace h)) = [e]
        /\ match message_property e with
           | Ok _ =>
               fst (mark_read_action w channelId (Some t) workspace h) = Ok tt
               /\ exits (snd (mark_read_action w channelId (Some t) workspace h))
                  = [1%Z]
           | Throw raised =>
               fst (mark_read_action w channelId (Some t) workspace h) = Throw raised
               /\ exits (snd (mark_read_action w channelId (Some t) workspace h)) = []
           end
  | (method, params, r) :: rest =>
      fst (mark_read_action w channelId (Some t) workspace h) = Ok tt
      /\ method = "conversations.mark"
      /\ params = [("channel", VStr channelId); ("ts", VStr t)]
      /\ rest = []
      /\ exits (snd (mark_read_action w channelId (Some t) workspace h))
         = (if is_ok r then [] else [1%Z])
  end.
Proof.
  intros Ht. unfold mark_read_action. cbn [truthy_opt_str]. rewrite Ht. cbn [negb].
  unfold bind, try_catch, emit, ask, ret, lift.
  destruct (getAuthenticatedClient w _ workspace) as [client | e].
  - destruct (markConversationRead w client channelId t _) as [r evs] eqn:E.
    match type of E with
    | markConversationRead _ _ _ _ ?hh = _ =>
        pose proof (all_requests_request w client "conversations.mark"
                      (markConversationRead_params channelId t) hh) as Hreq;
        pose proof (exits_request w client "conversations.mark"
                      (markConversationRead_params channelId t) hh) as Hex;
        pose proof (request_raises_Error w client "conversations.mark"
                      (markConversationRead_params channelId t) hh) as Herr
    end.
    unfold markConversationRead in E. rewrite E in Hreq, Hex, Herr.
    cbn [fst snd] in Hreq, Hex, Herr. unfold all_requests, exits in *.
    destruct r as [resp | e]; [| destruct (Herr e eq_refl) as [msg ->]];
      cbn; rewrite !collect_app, Hreq, ?Hex; cbn; auto 10.
  - destruct e as [msg | []]; cbn; eexists; (split; [reflexivity |]); cbn; auto.
Qed.

Lemma mark_read_with_timestamp_witness :
  truthy_str "1700000001.5" = true
  /\ fst (mark_read_action (answering plain_response) "C1" (Some "1700000001.5") None [])
     = Ok tt.
Proof.
  split; [reflexivity |].
  exact (proj1 (mark_read_with_timestamp (answering plain_response) "C1" "1700000001.5"
                                         None [] eq_refl)).
Defined.

Lemma try_catch_run {A : Type} (m : M A) (handler : Thrown -> M A) (h : Trace) :
  try_catch m handler h
  = match fst (m h) with
    | Ok a => (Ok a, snd (m h))
    | Throw e => (fst (handler e (h ++ snd (m h))%list),
                  (snd (m h) ++ snd (handler e (h ++ snd (m h))%list))%list)
    end.
Proof.
  unfold try_catch. destruct (m h) as [[a | e] evs]; simpl; [reflexivity |].
  now destruct (handler e (h ++ evs)%list).
Qed.

Lemma In_set_add (x y : string) (s : list string) :
  In x (set_add y s) <-> x = y \/ In x s.
Proof.
  unfold set_add. destruct (existsb (String.eqb y) s) eqn:E.
  - split; [now right |]. intros [-> | Hin]; [| exact Hin].
    apply existsb_exists in E as (z & Hz & Hyz). apply String.eqb_eq in Hyz. now subst.
  - rewrite in_app_iff. simpl. intuition.
Qed.

Lemma NoDup_set_add (y : string) (s : list string) : NoDup s -> NoDup (set_add y s).
Proof.
  intros Hs. unfold set_add. destruct (existsb (String.eqb y) s) eqn:E; [exact Hs |].
  apply NoDup_app; [exact Hs | repeat constructor; intros [] |].
  intros x Hx [Heq | []]. subst x.
  assert (Hex : existsb (String.eqb y) s = true)
    by (apply existsb_exists; exists y; split; [exact Hx | apply String.eqb_refl]).
  congruence.
Qed.

Lemma collect_userIds_fold (messages : list SlackMessage) :
  forall acc,
    NoDup acc ->
    let ids := fold_left (fun userIds msg =>
                            match msg_user msg with
                            | Some u => if truthy_str u then set_add u userIds else userIds
                            | None => userIds
                            end) messages acc in
    NoDup ids
    /\ forall u, In u ids
                 <-> In u acc
                     \/ exists msg, In msg messages /\ msg_user msg = Some u
                                    /\ truthy_str u = true.
Proof.
  induction messages as [| msg messages IH]; intros acc Hacc; cbv zeta; simpl.
  - split; [exact Hacc |]. intros u. split; [now left |].
    intros [Hin | (msg & [] & _)]. exact Hin.
  - set (acc' := match msg_user msg with
                 | Some u => if truthy_str u then set_add u acc else acc
                 | None => acc
                 end).
    assert (Hacc' : NoDup acc').
    { subst acc'. destruct (msg_user msg) as [u |]; [| exact Hacc].
      destruct (truthy_str u); [now apply NoDup_set_add | exact Hacc]. }
    destruct (IH acc' Hacc') as [Hnd Hin]. split; [exact Hnd |].
    intros u. rewrite Hin. subst acc'. split.
    + intros [Hu | (m & Hm & Hmu & Ht)].
      * destruct (msg_user msg) as [u' |] eqn:Eu; [| now left].
        destruct (truthy_str u') eqn:Et; [| now left].
        apply In_set_add in Hu as [-> | Hu]; [| now left].
        right. exists msg. auto.
      * right. exists m. auto.
    + intros [Hu | (m & [<- | Hm] & Hmu & Ht)].
      * left. destruct (msg_user msg) as [u' |]; [| exact Hu].
        destruct (truthy_str u'); [| exact Hu]. apply In_set_add. now right.
      * left. rewrite Hmu, Ht. apply In_set_add. now left.
      * right. exists m. auto.
Qed.

Lemma collect_userIds_spec (messages : list SlackMessage) :
  NoDup (collect_userIds messages)
  /\ forall u, In u (collect_userIds messages)
               <-> exists msg, In msg messages /\ msg_user msg = Some u
                               /\ truthy_str u = true.
Proof.
  destruct (collect_userIds_fold messages [] (NoDup_nil _)) as [Hnd Hin].
  split; [exact Hnd |]. intros u. unfold collect_userIds. rewrite (Hin u).
  split; [intros [[] | H]; exact H | now right].
Qed.

(** The requests of [getUsersInfo] are its lookups and nothing else. *)
Lemma getUsersInfo_loop_requests w this userIds :
  forall users h,
    all_requests (snd (getUsersInfo_loop w this userIds users h))
    = map (fun c => ("users.info", fst c, snd c))
          (lookups (snd (getUsersInfo_loop w this userIds users h)))
    /\ exits (snd (getUsersInfo_loop w this userIds users h)) = [].
Proof.
  induction userIds as [| userId rest IH]; intros users h.
  - split; reflexivity.
  - rewrite getUsersInfo_loop_step. cbv zeta. cbn [snd].
    set (r := fst (getUserInfo w this userId h)).
    set (evs1 := (snd (getUserInfo w this userId h) ++ _)%list).
    set (users1 := match resolved r with Some u => _ | None => _ end).
    destruct (IH users1 (h ++ evs1)%list) as [IHr IHe].
    unfold all_requests, exits, lookups, requests_of in *.
    rewrite !collect_app, IHr, IHe. subst evs1. rewrite !collect_app.
    unfold getUserInfo in *.
    rewrite !collect_request by above_more.
    rewrite (collect_request _ w this "users.info" (user_param userId) h)
      by (intros [] ?; simpl in *; try reflexivity; discriminate).
    fold r. destruct (is_ok r); split; reflexivity.
Qed.

Lemma getUsersInfo_requests w this userIds h :
  all_requests (snd (getUsersInfo w this userIds h))
  = map (fun c => ("users.info", fst c, snd c)) (lookups (snd (getUsersInfo w this userIds h)))
  /\ exits (snd (getUsersInfo w this userIds h)) = [].
Proof.
  destruct (getUsersInfo_loop_requests w this userIds [] h) as [Hr He].
  destruct (getUsersInfo_loop_spec w this userIds [] h) as (users' & evs & Hrun & _).
  unfold getUsersInfo, bind. rewrite Hrun in *. cbn [fst snd ret] in *.
  rewrite !app_nil_r. auto.
Qed.

Lemma lookups_request_other w this method params h :
  String.eqb method "users.info" = false ->
  lookups (snd (request w this method params h)) = [].
Proof.
  intros Hm. unfold lookups, requests_of.
  rewrite collect_request by apply above_request_of. simpl. now rewrite Hm.
Qed.

(** The first block of the read command: one request, chosen by the
    thread timestamp, and the messages of its answer. *)
Lemma read_messages_run w client channelId options h :
  exists r1,
    all_requests (snd (read_messages w client channelId options h))
    = [(fst (read_request channelId options), snd (read_request channelId options), r1)]
    /\ exits (snd (read_messages w client channelId options h)) = []
    /\ lookups (snd (read_messages w client channelId options h)) = []
    /\ fst (read_messages w client channelId options h)
       = match r1 with
         | Ok response => Ok (rev (read_shown options response))
         | Throw e => Throw e
         end
    /\ (forall e, r1 = Throw e -> exists msg, e = ErrorObj msg).
Proof.
  assert (Hhistory :
            forall m : M (list SlackMessage),
              m = (emit (EvSpinner sp_text "Fetching conversation history...") ;;;
                   response <- getConversationHistory w client channelId
                                 (read_options options) ;;
                   ret (if r_excludeReplies options
                        then filter top_level match messages response with
                                              | Some l => l
                                              | None => []
                                              end
                        else match messages response with
                             | Some l => l
                             | None => []
                             end)) ->
              absent_if_falsy_str (r_threadTs options) = None ->
              exists r1,
                all_requests (snd (m h))
                = [(fst (read_request channelId options),
                    snd (read_request channelId options), r1)]
                /\ exits (snd (m h)) = []
                /\ lookups (snd (m h)) = []
                /\ fst (m h)
                   = match r1 with
                     | Ok response => Ok (rev (read_shown options response))
                     | Throw e => Throw e
                     end
                /\ (forall e, r1 = Throw e -> exists msg, e = ErrorObj msg)).
  { intros m -> Habs. unfold read_request, read_shown. rewrite Habs.
    unfold bind, emit, ret.
    destruct (getConversationHistory w client channelId _ _) as [r evs] eqn:E.
    match type of E with
    | getConversationHistory _ _ _ ?o ?hh = _ =>
        pose proof (all_requests_request w client "conversations.history"
                      (getConversationHistory_params channelId o) hh) as Hreq;
        pose proof (exits_request w client "conversations.history"
                      (getConversationHistory_params channelId o) hh) as Hex;
        pose proof (lookups_request_other w client "conversations.history"
                      (getConversationHistory_params channelId o) hh eq_refl) as Hlk;
        pose proof (request_raises_Error w client "conversations.history"
                      (getConversationHistory_params channelId o) hh) as Herr
    end.
    unfold getConversationHistory in E. rewrite E in Hreq, Hex, Hlk, Herr.
    cbn [fst snd] in Hreq, Hex, Hlk, Herr. exists r.
    unfold all_requests, exits, lookups, requests_of in *.
    destruct r as [response | e]; cbn; rewrite ?collect_app, ?Hreq, ?Hex, ?Hlk;
      cbn; rewrite ?rev_involutive; auto 10. }
  unfold read_messages. cbv zeta.
  destruct (r_threadTs options) as [threadTs |] eqn:Et.
  - destruct (truthy_str threadTs) eqn:Etr.
    + unfold read_request, read_shown, absent_if_falsy_str. rewrite Et. simpl. rewrite Etr.
      unfold bind, emit, ret.
      destruct (getConversationReplies w client channelId threadTs _ _) as [r evs] eqn:E.
      match type of E with
      | getConversationReplies _ _ _ _ ?o ?hh = _ =>
          pose proof (all_requests_request w client "conversations.replies"
                        (getConversationReplies_params channelId threadTs o) hh) as Hreq;
          pose proof (exits_request w client "conversations.replies"
                        (getConversationReplies_params channelId threadTs o) hh) as Hex;
          pose proof (lookups_request_other w client "conversations.replies"
                        (getConversationReplies_params channelId threadTs o) hh eq_refl)
            as Hlk;
          pose proof (request_raises_Error w client "conversations.replies"
                        (getConversationReplies_params channelId threadTs o) hh) as Herr
      end.
      unfold getConversationReplies in E. rewrite E in Hreq, Hex, Hlk, Herr.
      cbn [fst snd] in Hreq, Hex, Hlk, Herr. exists r.
      unfold all_requests, exits, lookups, requests_of in *.
      destruct r as [response | e]; cbn; rewrite ?collect_app, ?Hreq, ?Hex, ?Hlk;
        cbn; rewrite ?rev_involutive; auto 10.
    + apply Hhistory; [reflexivity |].
      unfold absent_if_falsy_str. simpl. now rewrite Etr.
  - apply Hhistory; reflexivity.
Qed.

(** The block that fetches the users: no request when no message names
    a user, otherwise one lookup per distinct user, in order of first
    appearance. *)
Lemma read_users_run w client messages h :
  exists users,
    fst (read_users w client messages h) = Ok users
    /\ exits (snd (read_users w client messages h)) = []
    /\ all_requests (snd (read_users w client messages h))
       = map (fun c => ("users.info", fst c, snd c))
             (lookups (snd (read_users w client messages h)))
    /\ map fst (lookups (snd (read_users w client messages h)))
       = map user_param (collect_userIds messages)
    /\ users
       = users_by_id (collect resolved
                        (map snd (lookups (snd (read_users w client messages h))))).
Proof.
  unfold read_users. cbv zeta.
  destruct (collect_userIds messages) as [| u ids] eqn:Eids.
  - simpl. exists []. repeat split.
  - cbn [List.length Nat.ltb Nat.leb]. unfold bind, emit, ret.
    destruct (getUsersInfo w client (u :: ids) _) as [r evs] eqn:E.
    match type of E with
    | getUsersInfo _ _ _ ?hh = _ =>
        destruct (getUsersInfo_spec w client (u :: ids) hh)
          as (response & evs' & Hrun & _ & Hids & Husers & _);
        destruct (getUsersInfo_requests w client (u :: ids) hh) as [Hreq Hex]
    end.
    rewrite E in Hrun, Hreq, Hex. injection Hrun as -> <-. cbn [fst snd] in Hreq, Hex.
    exists (users_by_id (users response)). cbn [fst snd].
    unfold all_requests, exits, lookups, requests_of in *. cbn.
    rewrite !collect_app, Hreq, Hex. cbn. rewrite !app_nil_r.
    repeat split; try assumption. now rewrite Husers.
Qed.

(** What the read command prints for a response and the users found. *)
Lemma read_action_run w channelId options h :
  match all_requests (snd (read_action w channelId options h)) with
  | [] =>
      lookups (snd (read_action w channelId options h)) = []
      /\ exists e,
           failures (snd (read_action w channelId options h)) = [e]
           /\ match message_property e with
              | Ok _ =>
                  fst (read_action w channelId options h) = Ok None
                  /\ exits (snd (read_action w channelId options h)) = [1%Z]
              | Throw raised =>
                  fst (read_action w channelId options h) = Throw raised
                  /\ exits (snd (read_action w channelId options h)) = []
              end
  | (m, p, r1) :: rest =>
      (m, p) = read_request channelId options
      /\ match r1 with
         | Throw _ =>
             rest = []
             /\ fst (read_action w channelId options h) = Ok None
             /\ exits (snd (read_action w channelId options h)) = [1%Z]
             /\ lookups (snd (read_action w channelId options h)) = []
         | Ok response =>
             exits (snd (read_action w channelId options h)) = []
             /\ rest = map (fun c => ("users.info", fst c, snd c))
                           (lookups (snd (read_action w channelId options h)))
             /\ map fst (lookups (snd (read_action w channelId options h)))
                = map user_param (collect_userIds (read_shown options response))
             /\ fst (read_action w channelId options h)
                = Ok (Some
                        (let users :=
                           users_by_id
                             (collect resolved
                                (map snd (lookups (snd (read_action w channelId
                                                                    options h))))) in
                         let messages := read_shown options response in
                         if r_json options
                         then OutJson channelId (List.length messages) messages
                                      (map (fun kv => json_user (snd kv)) users)
                         else OutText channelId messages users))
         end
  end.
Proof.
  remember (read_action w channelId options h) as run eqn:Hrun.
  unfold read_action in Hrun.
  rewrite (@bind_Ok _ _ _ _ h tt) in Hrun by reflexivity.
  cbn [emit fst snd] in Hrun. set (h1 := (h ++ _)%list) in Hrun.
  rewrite try_catch_run in Hrun.
  destruct (getAuthenticatedClient w h1 (r_workspace options)) as [client | e] eqn:Ec.
  - rewrite (@bind_Ok _ _ _ _ h1 client) in Hrun by (unfold ask; cbn; now rewrite Ec).
    unfold ask in Hrun. cbn [snd] in Hrun. rewrite Ec in Hrun.
    set (h2 := (h1 ++ _)%list) in Hrun.
    destruct (read_messages_run w client channelId options h2)
      as (r1 & Hreq & Hex & Hlk & Hres & Herr).
    destruct r1 as [response | e]; [| destruct (Herr e eq_refl) as [msg ->]].
    + rewrite (@bind_Ok _ _ _ _ h2 (rev (read_shown options response))) in Hrun
        by exact Hres.
      rewrite rev_involutive in Hrun.
      set (h3 := (h2 ++ _)%list) in Hrun.
      destruct (read_users_run w client (read_shown options response) h3)
        as (users & Hu & Huex & Hureq & Huids & Husers).
      rewrite (@bind_Ok _ _ _ _ h3 users) in Hrun by exact Hu.
      set (h4 := (h3 ++ _)%list) in Hrun.
      rewrite (@bind_Ok _ _ _ _ h4 tt) in Hrun by reflexivity.
      cbn [fst snd emit ret] in Hrun. subst run. cbn [fst snd].
      unfold all_requests, exits, lookups, requests_of in *.
      rewrite !collect_app, Hreq, Hex, Hlk, Hureq, Huex. cbn.
      rewrite ?app_nil_r.
      split; [now destruct (read_request channelId options) |].
      subst users. repeat split; try assumption.
    + rewrite (@bind_Throw _ _ _ _ h2 (ErrorObj msg)) in Hrun by exact Hres.
      cbn [fst snd] in Hrun. unfold bind, emit, ret, lift in Hrun.
      cbn [fst snd message_property] in Hrun.
      subst run. cbn [fst snd].
      unfold all_requests, exits, lookups, requests_of in *.
      rewrite !collect_app, Hreq, Hex, Hlk. cbn.
      split; [now destruct (read_request channelId options) |]. auto.
  - rewrite (@bind_Throw _ _ _ _ h1 e) in Hrun by (unfold ask; cbn; now rewrite Ec).
    unfold ask, bind, emit, ret, lift in Hrun. cbn in Hrun. rewrite Ec in Hrun.
    destruct e as [msg | []]; cbn in Hrun; subst run; cbn;
      (split; [reflexivity |]); eexists; (split; [reflexivity |]); cbn; auto.
Qed.

(** X16. The run of the read command.  Unless no client could be obtained
    it never raises and starts with one request: the replies of the
    thread when a non-empty thread timestamp is given, the history of the
    channel otherwise, with the limit, oldest and latest options.  When
    that request fails nothing else is requested, nothing is printed and
    the action exits with status 1; otherwise all further requests are
    user lookups, the action prints and does not exit: a lookup that
    fails never fails the command.  When no client could be obtained
    nothing is requested or printed, and the action exits with status 1
    if the message of what was raised can be read; if that was [null] or
    [undefined] the catch clause raises in its turn, and so does the
    action, without an exit. *)
Theorem read_action_requests (w : World) (channelId : string) (options : ReadOptions)
        (h : Trace) :
  match all_requests (snd (read_action w channelId options h)) with
  | [] =>
      exists e,
        failures (snd (read_action w channelId options h)) = [e]
        /\ match message_property e with
           | Ok _ =>
               fst (read_action w channelId options h) = Ok None
               /\ exits (snd (read_action w channelId options h)) = [1%Z]
           | Throw raised =>
               fst (read_action w channelId options h) = Throw raised
               /\ exits (snd (read_action w channelId options h)) = []
           end
  | (method, params, r1) :: rest =>
      (exists out,
          fst (read_action w channelId options h) = Ok out
          /\ (out = None <-> exits (snd (read_action w channelId options h)) = [1%Z])
          /\ (out <> None <-> exits (snd (read_action w channelId options h)) = [])
          /\ (out = None <-> is_ok r1 = false))
      /\ (method, params)
         = match r_threadTs options with
           | Some threadTs =>
               if truthy_str threadTs
               then ("conversations.replies",
                     getConversationReplies_params channelId threadTs
                                                   (read_options options))
               else ("conversations.history",
                     getConversationHistory_params channelId (read_options options))
           | None => ("conversations.history",
                      getConversationHistory_params channelId (read_options options))
           end
      /\ Js.get "channel" params = Some (VStr channelId)
      /\ (if is_ok r1
          then Forall (fun c => fst (fst c) = "users.info") rest
          else rest = [])
  end.
Proof.
  pose proof (read_action_run w channelId options h) as Hrun.
  destruct (all_requests (snd (read_action w channelId options h)))
    as [| [[m p] r1] rest].
  - exact (proj2 Hrun).
  - destruct Hrun as [Hmp Hrun].
    assert (Hreq : read_request channelId options
                   = match r_threadTs options with
                     | Some threadTs =>
                         if truthy_str threadTs
                         then ("conversations.replies",
                               getConversationReplies_params channelId threadTs
                                                             (read_options options))
                         else ("conversations.history",
                               getConversationHistory_params channelId
                                                             (read_options options))
                     | None => ("conversations.history",
                                getConversationHistory_params channelId
                                                              (read_options options))
                     end).
    { unfold read_request, absent_if_falsy_str.
      destruct (r_threadTs options) as [t |]; simpl; [| reflexivity].
      now destruct (truthy_str t). }
    assert (Hchannel : Js.get "channel" p = Some (VStr channelId)).
    { rewrite Hreq in Hmp. destruct (r_threadTs options) as [t |];
        [destruct (truthy_str t) |]; injection Hmp as -> ->;
        unfold getConversationReplies_params, getConversationHistory_params;
        skip_assignments; reflexivity. }
    destruct r1 as [response | e].
    + destruct Hrun as (Hex & Hrest & _ & Hres). split.
      * eexists. split; [exact Hres |]. rewrite Hex. cbn [is_ok].
        repeat split; try congruence; discriminate.
      * split; [now rewrite Hmp, Hreq |]. split; [exact Hchannel |].
        cbn [is_ok]. rewrite Hrest. apply Forall_forall.
        intros c Hc. apply in_map_iff in Hc as (c' & <- & _). reflexivity.
    + destruct Hrun as (Hrest & Hres & Hex & _). split.
      * exists None. rewrite Hex. cbn [is_ok].
        repeat split; try congruence; discriminate.
      * split; [now rewrite Hmp, Hreq |]. split; [exact Hchannel |]. exact Hrest.
Qed.

(** X17. What the read command prints.  The messages printed are those of
    the response in reverse order, oldest first; replies inside threads
    (a non-empty thread timestamp that differs from the message's own)
    are left out when replies are excluded and no thread was asked for;
    the JSON form counts exactly the messages it lists. *)
Theorem read_action_prints_oldest_first (w : World) (channelId : string)
        (options : ReadOptions) (h : Trace) (out : ReadOutput) :
  fst (read_action w channelId options h) = Ok (Some out) ->
  exists method params response rest,
    all_requests (snd (read_action w channelId options h))
    = (method, params, Ok response) :: rest
    /\ (let received := match messages response with
                        | Some l => l
                        | None => []
                        end in
        out_messages out
        = rev (if truthy_opt_str (r_threadTs options) then received
               else if r_excludeReplies options then filter top_level received
                    else received))
    /\ (forall msg, In msg (out_messages out) ->
           r_excludeReplies options = true -> truthy_opt_str (r_threadTs options) = false ->
           forall t, thread_ts msg = Some t -> t = "" \/ t = ts msg)
    /\ match out with
       | OutJson channel_id message_count listed _ =>
           r_json options = true /\ channel_id = channelId
           /\ message_count = List.length listed
       | OutText channel_id _ _ => r_json options = false /\ channel_id = channelId
       end.
Proof.
  intros Hout.
  pose proof (read_action_run w channelId options h) as Hrun.
  destruct (all_requests (snd (read_action w channelId options h)))
    as [| [[m p] r1] rest].
  - destruct Hrun as (_ & e & _ & Hres).
    destruct (message_property e); destruct Hres as [Hres _]; congruence.
  - destruct Hrun as [_ Hrun]. destruct r1 as [response | e].
    + destruct Hrun as (_ & _ & _ & Hres). rewrite Hres in Hout.
      injection Hout as <-. exists m, p, response, rest. split; [reflexivity |].
      assert (Hshown :
                read_shown options response
                = rev (if truthy_opt_str (r_threadTs options)
                       then match messages response with Some l => l | None => [] end
                       else if r_excludeReplies options
                            then filter top_level
                                        match messages response with
                                        | Some l => l
                                        | None => []
                                        end
                            else match messages response with
                                 | Some l => l
                                 | None => []
                                 end)).
      { unfold read_shown, absent_if_falsy_str.
        destruct (r_threadTs options) as [t |]; simpl; [| reflexivity].
        now destruct (truthy_str t). }
      cbv zeta. split; [| split].
      * destruct (r_json options); exact Hshown.
      * intros msg Hmsg Hex Hth t Ht.
        assert (Hin : In msg (read_shown options response))
          by (destruct (r_json options); exact Hmsg).
        rewrite Hshown, Hth, Hex in Hin. apply in_rev in Hin.
        apply filter_In in Hin as [_ Htop]. unfold top_level in Htop. rewrite Ht in Htop.
        apply orb_true_iff in Htop as [Hempty | Heq].
        -- left. now destruct t.
        -- right. now apply String.eqb_eq.
      * destruct (r_json options); auto.
    + destruct Hrun as (_ & Hres & _). congruence.
Qed.

Lemma read_action_prints_oldest_first_witness :
  exists method params response rest,
    all_requests
      (snd (read_action
              (answering {| ok := true; error := None; user := None;
                            messages := Some [thread_reply; hello];
                            upload_url := ""; file_id := "" |})
              "C1"
              {| r_threadTs := None; r_excludeReplies := true; r_limit := Int 100;
                 r_oldest := None; r_latest := None; r_workspace := None;
                 r_json := false |} []))
    = (method, params, Ok response) :: rest
    /\ (let received := match messages response with
                        | Some l => l
                        | None => []
                        end in
        out_messages (OutText "C1" [hello] [])
        = rev (if truthy_opt_str None then received
               else if true then filter top_level received else received))
    /\ (forall msg, In msg (out_messages (OutText "C1" [hello] [])) ->
           true = true -> truthy_opt_str None = false ->
           forall t, thread_ts msg = Some t -> t = "" \/ t = ts msg)
    /\ (false = false /\ "C1" = "C1").
Proof.
  apply (read_action_prints_oldest_first
           (answering {| ok := true; error := None; user := None;
                         messages := Some [thread_reply; hello];
                         upload_url := ""; file_id := "" |})
           "C1"
           {| r_threadTs := None; r_excludeReplies := true; r_limit := Int 100;
              r_oldest := None; r_latest := None; r_workspace := None;
              r_json := false |} [] (OutText "C1" [hello] [])).
  reflexivity.
Defined.

Lemma NoDup_map_injective {A B : Type} (f : A -> B) (l : list A) :
  (forall a b, f a = f b -> a = b) -> NoDup l -> NoDup (map f l).
Proof.
  intros Hinj Hl. induction Hl as [| x l Hx Hl IH]; simpl; constructor.
  - intros Hin. apply in_map_iff in Hin as (y & Hy & Hyl).
    apply Hinj in Hy. now subst.
  - exact IH.
Qed.

Lemma map_set_keys (k k' : string) (v : SlackUser) (m : list (string * SlackUser)) :
  In k' (map fst (map_set k v m)) <-> k' = k \/ In k' (map fst m).
Proof.
  induction m as [| [k0 v0] m IH]; simpl.
  - intuition.
  - destruct (String.eqb_spec k k0) as [-> | Hne]; simpl.
    + intuition.
    + rewrite IH. intuition.
Qed.

Lemma map_set_NoDup (k : string) (v : SlackUser) (m : list (string * SlackUser)) :
  NoDup (map fst m) -> NoDup (map fst (map_set k v m)).
Proof.
  induction m as [| [k0 v0] m IH]; simpl; intros Hm.
  - repeat constructor. intros [].
  - apply NoDup_cons_iff in Hm as [Hnotin Hm].
    destruct (String.eqb_spec k k0) as [-> | Hne]; simpl.
    + now constructor.
    + constructor; [| now apply IH].
      intros Hin. apply map_set_keys in Hin as [-> | Hin]; [now apply Hne | now apply Hnotin].
Qed.

Lemma map_set_entries (k : string) (v : SlackUser) (m : list (string * SlackUser))
      (k' : string) (v' : SlackUser) :
  In (k', v') (map_set k v m) -> (k' = k /\ v' = v) \/ In (k', v') m.
Proof.
  induction m as [| [k0 v0] m IH]; simpl.
  - intros [[= <- <-] | []]. now left.
  - destruct (String.eqb_spec k k0) as [-> | Hne]; simpl.
    + intros [[= <- <-] | Hin]; [now left | right; now right].
    + intros [Heq | Hin]; [right; now left |].
      destruct (IH Hin) as [Hnew | Hold]; [now left | right; now right].
Qed.

(** The map of users: one entry per identifier, each user under its
    own id, and an entry for the id of every user put in. *)
Lemma users_by_id_spec (us : list SlackUser) :
  NoDup (map fst (users_by_id us))
  /\ (forall k u, In (k, u) (users_by_id us) -> user_id u = k /\ In u us)
  /\ (forall u, In u us -> In (user_id u) (map fst (users_by_id us))).
Proof.
  unfold users_by_id.
  assert (H : forall acc,
             NoDup (map fst acc) ->
             NoDup (map fst (fold_left (fun m u => map_set (user_id u) u m) us acc))
             /\ (forall k u,
                    In (k, u) (fold_left (fun m u => map_set (user_id u) u m) us acc) ->
                    In (k, u) acc \/ (user_id u = k /\ In u us))
             /\ (forall k,
                    In k (map fst acc) \/ In k (map user_id us) ->
                    In k (map fst (fold_left (fun m u => map_set (user_id u) u m) us acc)))).
  { induction us as [| u0 us IH]; intros acc Hacc; simpl.
    - split; [exact Hacc |]. split; [now left |]. now intros k [Hk | []].
    - destruct (IH (map_set (user_id u0) u0 acc) (map_set_NoDup _ _ _ Hacc))
        as (Hnd & Hent & Hkeys).
      split; [exact Hnd |]. split.
      + intros k u Hin. destruct (Hent k u Hin) as [Hacc' | [Hid Hu]].
        * apply map_set_entries in Hacc' as [[-> ->] | Hold]; [| now left].
          right. split; [reflexivity | now left].
        * right. split; [exact Hid | now right].
      + intros k Hk. apply Hkeys. rewrite map_set_keys.
        destruct Hk as [Hk | [Hk | Hk]]; auto. }
  destruct (H [] (NoDup_nil _)) as (Hnd & Hent & Hkeys).
  split; [exact Hnd |]. split.
  - intros k u Hin. destruct (Hent k u Hin) as [[] | Hok]. exact Hok.
  - intros u Hu. apply Hkeys. right. now apply in_map.
Qed.

(** X18. The user lookups of the read command.  No user is looked up twice;
    the users looked up are exactly the non-empty user identifiers of the
    messages printed, in order of first appearance, so there is no
    lookup at all when no message names a user; and the users handed to
    the output are the resolved ones, one entry per identifier, each
    filed under its own id. *)
Theorem read_action_looks_each_user_up_once (w : World) (channelId : string)
        (options : ReadOptions) (h : Trace) :
  NoDup (map fst (lookups (snd (read_action w channelId options h))))
  /\ forall out,
       fst (read_action w channelId options h) = Ok (Some out) ->
       map fst (lookups (snd (read_action w channelId options h)))
       = map user_param (collect_userIds (out_messages out))
       /\ (forall u, In (user_param u)
                        (map fst (lookups (snd (read_action w channelId options h))))
                     <-> exists msg, In msg (out_messages out)
                                     /\ msg_user msg = Some u /\ u <> "")
       /\ ((forall msg, In msg (out_messages out) -> truthy_opt_str (msg_user msg) = false)
           -> lookups (snd (read_action w channelId options h)) = [])
       /\ match out with
          | OutText _ _ users =>
              users = users_by_id
                        (collect resolved
                           (map snd (lookups (snd (read_action w channelId options h)))))
              /\ NoDup (map fst users)
              /\ (forall k u, In (k, u) users -> user_id u = k)
          | OutJson _ _ _ users =>
              users = map json_user
                          (map snd
                             (users_by_id
                                (collect resolved
                                   (map snd (lookups (snd (read_action w channelId
                                                                       options h)))))))
          end.
Proof.
  pose proof (read_action_run w channelId options h) as Hrun.
  assert (Hinj : forall a b, user_param a = user_param b -> a = b)
    by (intros a b [= ->]; reflexivity).
  destruct (all_requests (snd (read_action w channelId options h)))
    as [| [[m p] r1] rest].
  - destruct Hrun as (Hlk & e & _ & Hres). rewrite Hlk. split; [constructor |].
    intros out Hout.
    destruct (message_property e); destruct Hres as [Hres _]; congruence.
  - destruct Hrun as [_ Hrun]. destruct r1 as [response | e].
    + destruct Hrun as (_ & _ & Hids & Hres).
      destruct (collect_userIds_spec (read_shown options response)) as [Hnd Hin].
      split.
      * rewrite Hids. now apply NoDup_map_injective.
      * intros out Hout. rewrite Hres in Hout. injection Hout as <-.
        assert (Hmsgs : out_messages
                          (if r_json options
                           then OutJson channelId
                                        (List.length (read_shown options response))
                                        (read_shown options response)
                                        (map (fun kv => json_user (snd kv))
                                             (users_by_id
                                                (collect resolved
                                                   (map snd
                                                      (lookups
                                                         (snd (read_action w channelId
                                                                 options h)))))))
                           else OutText channelId (read_shown options response)
                                        (users_by_id
                                           (collect resolved
                                              (map snd
                                                 (lookups
                                                    (snd (read_action w channelId
                                                            options h)))))))
                        = read_shown options response)
          by now destruct (r_json options).
        cbv zeta. rewrite Hmsgs. split; [exact Hids |]. split; [| split].
        -- intros u. rewrite Hids. split.
           ++ intros Hu. apply in_map_iff in Hu as (u' & Hu' & Hin').
              apply Hinj in Hu'. subst u'.
              apply Hin in Hin' as (msg & Hmsg & Huser & Ht).
              exists msg. repeat split; try assumption. now destruct u.
           ++ intros (msg & Hmsg & Huser & Hne). apply in_map. apply Hin.
              exists msg. repeat split; try assumption. now destruct u.
        -- intros Hnone.
           assert (Hempty : collect_userIds (read_shown options response) = []).
           { destruct (collect_userIds (read_shown options response)) as [| u ids] eqn:E;
               [reflexivity |].
             destruct (proj1 (Hin u) (or_introl eq_refl)) as (msg & Hmsg & Huser & Ht).
             specialize (Hnone msg Hmsg). rewrite Huser in Hnone. simpl in Hnone.
             congruence. }
           rewrite Hempty in Hids.
           now destruct (lookups (snd (read_action w channelId options h))).
        -- destruct (r_json options); [now rewrite map_map |].
           split; [reflexivity |].
           destruct (users_by_id_spec
                       (collect resolved
                          (map snd (lookups (snd (read_action w channelId options h))))))
             as (Hnodup & Hent & _).
           split; [exact Hnodup |]. intros k u Hku. now apply Hent.
    + destruct Hrun as (_ & Hres & _ & Hlk). rewrite Hlk. split; [constructor |].
      intros out Hout. congruence.
Qed.

Example read_action_thread :
  map (fun c => (fst (fst c), snd (fst c)))
      (all_requests
         (snd (read_action
                 (answering {| ok := true; error := None; user := None;
                               messages := Some [thread_reply; hello];
                               upload_url := ""; file_id := "" |})
                 "C1"
                 {| r_threadTs := Some "1700000000.000100"; r_excludeReplies := true;
                    r_limit := NaN; r_oldest := None; r_latest := None;
                    r_workspace := None; r_json := true |} [])))
  = [("conversations.replies",
      [("channel", VStr "C1"); ("ts", VStr "1700000000.000100")]);
     ("users.info", [("user", VStr "U1")])].
Proof. reflexivity. Qed.

(** X19. The request of the list command.  The mapping it sends is its
    three options and has no cursor key, so the form body never holds a
    cursor field; the limit is not tested on the way: whatever
    [parseInt] gave, NaN included, reaches the form body as text and the
    library client as a number. *)
Theorem list_command_request (w : World) (types : string) (limit : Num)
        (excludeArchived : bool) (h : Trace) :
  (forall this,
      map (fun c => (fst (fst c), snd (fst c)))
          (all_requests (snd (listConversations w this
                                (list_options types limit excludeArchived) h)))
      = [("conversations.list", list_options types limit excludeArchived)])
  /\ Js.get "cursor" (list_options types limit excludeArchived) = None
  /\ defined_values (list_options types limit excludeArchived)
  /\ (forall wid wname url xoxd xoxc,
         form_bodies
           (snd (listConversations w (new_SlackClient
                                        (BrowserAuthConfig wid wname url xoxd xoxc))
                                   (list_options types limit excludeArchived) h))
         = [[("token", xoxc); ("types", types); ("limit", String_num limit);
             ("exclude_archived", if excludeArchived then "true" else "false")]])
  /\ (forall xoxc, limit = NaN ->
         form_get "limit" (formBody xoxc (list_options types limit excludeArchived))
         = Some "NaN")
  /\ (forall wid wname token tt,
         api_calls
           (snd (listConversations w (new_SlackClient
                                        (StandardAuthConfig wid wname token tt))
                                   (list_options types limit excludeArchived) h))
         = [("conversations.list", list_options types limit excludeArchived)]).
Proof.
  repeat apply conj.
  - intros this. unfold listConversations. now rewrite all_requests_request.
  - reflexivity.
  - intros k. unfold list_options. simpl.
    repeat match goal with
           | |- context [String.eqb ?a ?b] => destruct (String.eqb a b)
           end; discriminate.
  - intros wid wname url xoxd xoxc. unfold listConversations.
    rewrite (form_bodies_request_browser
               w (new_SlackClient (BrowserAuthConfig wid wname url xoxd xoxc))
               wid wname url xoxd xoxc "conversations.list" _ h eq_refl).
    now destruct excludeArchived.
  - intros xoxc ->. reflexivity.
  - intros. unfold listConversations. apply api_calls_request_standard.
Qed.

(** ** The catch clause of the commands and the order of the form body *)

Example mark_read_without_client :
  mark_read_action (without_client (ErrorObj "No workspace configured")) "C1" None None []
  = (Ok tt,
     [EvSpinner sp_start "Marking conversation as read...";
      EvGetClient None (Throw (ErrorObj "No workspace configured"));
      EvSpinner sp_fail "Failed to mark conversation as read";
      EvErrorOut (Some "No workspace configured");
      EvExit 1])
  /\ snd (mark_read_action (without_client (ThrownVal (VStr "offline"))) "C1" None None [])
     = [EvSpinner sp_start "Marking conversation as read...";
        EvGetClient None (Throw (ThrownVal (VStr "offline")));
        EvSpinner sp_fail "Failed to mark conversation as read";
        EvErrorOut None;
        EvExit 1]
  /\ snd (mark_read_action (without_client (ThrownVal VNull)) "C1" None None [])
     = [EvSpinner sp_start "Marking conversation as read...";
        EvGetClient None (Throw (ThrownVal VNull));
        EvSpinner sp_fail "Failed to mark conversation as read"]
  /\ is_ok (fst (mark_read_action (without_client (ThrownVal VNull)) "C1" None None []))
     = false.
Proof. repeat split. Qed.

Example formBody_index_keys_first :
  formBody "xoxc-1" [("b", VStr "x"); ("10", VStr "y"); ("01", VStr "z"); ("2", VNum (Int 5))]
  = [("2", "5"); ("10", "y"); ("token", "xoxc-1"); ("b", "x"); ("01", "z")].
Proof. reflexivity. Qed.
